(** * The window manager of the desktop shell

    A shallow embedding of the window registry defined in
    [src/components/desktop/apps/ParkingSF.tsx] (lines 378-563: the
    [WindowManagerProvider] component and the [useWindowManager] hook),
    together with the properties the specification states about it.
    The other parts of the source follow it: the desktop icon's click
    handling, the parking assistant and the chat route, each in a module
    of its own, with the properties their code shows.

    The provider owns two pieces of React state, [windows] and [topZIndex].
    Every callback it exposes queues state updaters.  Each callback is
    given here as the function from the registry its updaters are applied
    to, to the registry they leave: the updater given to [setTopZIndex] is
    applied to the counter, and the updater it hands to [setWindows] is
    applied to the window list with the [newZ] computed there.  A call made
    in an event of its own is one such transition.  For calls made in one
    batch the transitions need not follow the order of the calls (see
    [run]); the properties below are stated so that they hold in whatever
    order the updates are applied.  Logging and metrics calls have no
    effect on that state and are left out.

    Numbers: [zIndex] and [topZIndex] are JavaScript numbers that start at
    100 and only ever have 1 added, so they are integers, modelled in [Z];
    [topZIndex_run] counts how far the counter gets.  Geometry values are
    only copied by this code, never computed with, and are carried as [Z]
    as well. *)

From Stdlib Require Import ZArith List String Ascii Bool Arith Lia.
From Stdlib Require Import Permutation.
Import ListNotations.

Open Scope string_scope.
Open Scope list_scope.
Open Scope Z_scope.

Section WindowManager.

(** The part of a window that the registry only stores and hands back
    (icon, hosted content, ...). *)
Context {Payload : Type}.

(** ** Data model *)

(** Modelled from the spec: the [WindowState] interface of [./types], which
    is imported by the source but is not part of it.  The fields are those
    of section 3 of the specification; the ones the code reads or writes
    ([id], [x], [y], [width], [height], [zIndex], [isMinimized],
    [isMaximized], [isFocused]) carry the names the code uses. *)
Record WindowState : Type := mkWindowState {
  id : string;
  title : string;
  x : Z;
  y : Z;
  width : Z;
  height : Z;
  zIndex : Z;
  isMinimized : bool;
  isMaximized : bool;
  isFocused : bool;
  payload : Payload
}.

(** [Omit<WindowState, 'zIndex' | 'isFocused'>], the argument of
    [openWindow]. *)
Record WindowDescriptor : Type := mkWindowDescriptor {
  d_id : string;
  d_title : string;
  d_x : Z;
  d_y : Z;
  d_width : Z;
  d_height : Z;
  d_isMinimized : bool;
  d_isMaximized : bool;
  d_payload : Payload
}.

(** The two [useState] cells of [WindowManagerProvider]. *)
Record Registry : Type := mkRegistry {
  windows : list WindowState;
  topZIndex : Z
}.

(** [useState<WindowState[]>([])] and [useState(100)]. *)
Definition initialRegistry : Registry :=
  {| windows := []; topZIndex := 100 |}.

(** ** Object literals of the source *)

(** [{ ...w, isFocused: false }] *)
Definition unfocus (w : WindowState) : WindowState :=
  mkWindowState (id w) (title w) (x w) (y w) (width w) (height w)
    (zIndex w) (isMinimized w) (isMaximized w) false (payload w).

(** [{ ...w, isFocused: true, zIndex: newZ }] *)
Definition raise (newZ : Z) (w : WindowState) : WindowState :=
  mkWindowState (id w) (title w) (x w) (y w) (width w) (height w)
    newZ (isMinimized w) (isMaximized w) true (payload w).

(** [{ ...w, isMinimized: false, isFocused: true, zIndex: newZ }] *)
Definition unminimizeAndRaise (newZ : Z) (w : WindowState) : WindowState :=
  mkWindowState (id w) (title w) (x w) (y w) (width w) (height w)
    newZ false (isMaximized w) true (payload w).

(** [{ ...w, isMinimized: true, isFocused: false }] *)
Definition minimize (w : WindowState) : WindowState :=
  mkWindowState (id w) (title w) (x w) (y w) (width w) (height w)
    (zIndex w) true (isMaximized w) false (payload w).

(** [{ ...w, isMaximized: !w.isMaximized }] *)
Definition toggleMaximized (w : WindowState) : WindowState :=
  mkWindowState (id w) (title w) (x w) (y w) (width w) (height w)
    (zIndex w) (isMinimized w) (negb (isMaximized w)) (isFocused w)
    (payload w).

(** [{ ...w, x, y }] *)
Definition moveTo (nx ny : Z) (w : WindowState) : WindowState :=
  mkWindowState (id w) (title w) nx ny (width w) (height w)
    (zIndex w) (isMinimized w) (isMaximized w) (isFocused w) (payload w).

(** [{ ...w, width, height }] *)
Definition resizeTo (nw nh : Z) (w : WindowState) : WindowState :=
  mkWindowState (id w) (title w) (x w) (y w) nw nh
    (zIndex w) (isMinimized w) (isMaximized w) (isFocused w) (payload w).

(** [{ ...window, zIndex: newZ, isFocused: true }] *)
Definition ofDescriptor (window : WindowDescriptor) (newZ : Z) : WindowState :=
  mkWindowState (d_id window) (d_title window) (d_x window) (d_y window)
    (d_width window) (d_height window) newZ (d_isMinimized window)
    (d_isMaximized window) true (d_payload window).

(** [w.id === i] on strings. *)
Definition hasId (i : string) (w : WindowState) : bool := String.eqb (id w) i.

(** ** The eight callbacks *)

(** [openWindow]: the counter is bumped first; the window list is then
    rebuilt with [newZ], in one of three ways. *)
Definition openWindow (window : WindowDescriptor) (s : Registry) : Registry :=
  let currentZ := topZIndex s in
  let newZ := currentZ + 1 in
  let prev := windows s in
  {| windows :=
       match find (hasId (d_id window)) prev with
       | Some existing =>
           if isMinimized existing then
             map (fun w => if hasId (d_id window) w
                           then unminimizeAndRaise newZ w
                           else unfocus w) prev
           else
             map (fun w => if hasId (d_id window) w
                           then raise newZ w
                           else unfocus w) prev
       | None => map unfocus prev ++ [ofDescriptor window newZ]
       end;
     topZIndex := newZ |}.

(** [closeWindow]: [prev.filter(w => w.id !== id)]. *)
Definition closeWindow (i : string) (s : Registry) : Registry :=
  {| windows := filter (fun w => negb (hasId i w)) (windows s);
     topZIndex := topZIndex s |}.

(** [minimizeWindow] *)
Definition minimizeWindow (i : string) (s : Registry) : Registry :=
  {| windows := map (fun w => if hasId i w then minimize w else w) (windows s);
     topZIndex := topZIndex s |}.

(** [maximizeWindow] *)
Definition maximizeWindow (i : string) (s : Registry) : Registry :=
  {| windows :=
       map (fun w => if hasId i w then toggleMaximized w else w) (windows s);
     topZIndex := topZIndex s |}.

(** [restoreWindow]: no look-up of [id] precedes the update. *)
Definition restoreWindow (i : string) (s : Registry) : Registry :=
  let currentZ := topZIndex s in
  let newZ := currentZ + 1 in
  {| windows :=
       map (fun w => if hasId i w then unminimizeAndRaise newZ w
                     else unfocus w) (windows s);
     topZIndex := newZ |}.

(** [focusWindow]: no look-up of [id] precedes the update. *)
Definition focusWindow (i : string) (s : Registry) : Registry :=
  let currentZ := topZIndex s in
  let newZ := currentZ + 1 in
  {| windows :=
       map (fun w => if hasId i w then raise newZ w else unfocus w)
           (windows s);
     topZIndex := newZ |}.

(** [updateWindowPosition] *)
Definition updateWindowPosition (i : string) (nx ny : Z) (s : Registry)
  : Registry :=
  {| windows := map (fun w => if hasId i w then moveTo nx ny w else w)
                    (windows s);
     topZIndex := topZIndex s |}.

(** [updateWindowSize] *)
Definition updateWindowSize (i : string) (nw nh : Z) (s : Registry)
  : Registry :=
  {| windows := map (fun w => if hasId i w then resizeTo nw nh w else w)
                    (windows s);
     topZIndex := topZIndex s |}.

(** ** Sequences of calls *)

Inductive Op : Type :=
| Open (window : WindowDescriptor)
| Close (i : string)
| Minimize (i : string)
| Maximize (i : string)
| Restore (i : string)
| Focus (i : string)
| UpdatePosition (i : string) (nx ny : Z)
| UpdateSize (i : string) (nw nh : Z).

Definition step (s : Registry) (o : Op) : Registry :=
  match o with
  | Open window => openWindow window s
  | Close i => closeWindow i s
  | Minimize i => minimizeWindow i s
  | Maximize i => maximizeWindow i s
  | Restore i => restoreWindow i s
  | Focus i => focusWindow i s
  | UpdatePosition i nx ny => updateWindowPosition i nx ny s
  | UpdateSize i nw nh => updateWindowSize i nw nh s
  end.

(** The registry after the updates of [ops] have been applied one after the
    other, in the order of the list.  For calls made in separate events
    this is the order of the calls.  Within one React batch it need not be:
    [closeWindow], [minimizeWindow], [maximizeWindow] and the two geometry
    callbacks queue their update of the window list at once, whereas
    [openWindow], [restoreWindow] and [focusWindow] queue it from inside
    the updater of the counter, which React may run only when it renders;
    their update can land after those of later calls of the first kind.
    The counter updaters, and with them the updates of the second kind,
    keep their order.  A batch therefore commits [run] of a reordering
    of its calls, and what holds of [run] for every list of calls holds
    of every batch. *)
Definition run (ops : list Op) (s : Registry) : Registry :=
  fold_left step ops s.

(** The operations that hand out a [zIndex]. *)
Definition focusAffecting (o : Op) : bool :=
  match o with
  | Open _ | Restore _ | Focus _ => true
  | _ => false
  end.

(** The id an operation is aimed at. *)
Definition target (o : Op) : string :=
  match o with
  | Open window => d_id window
  | Close i | Minimize i | Maximize i | Restore i | Focus i
  | UpdatePosition i _ _ | UpdateSize i _ _ => i
  end.

(** ** Observations on a window list *)

Definition countFocused (ws : list WindowState) : nat :=
  List.length (filter isFocused ws).

Definition countId (i : string) (ws : list WindowState) : nat :=
  List.length (filter (hasId i) ws).

Definition ids (ws : list WindowState) : list string := map id ws.

(** What holds of every registry the callbacks can produce from the initial
    one: ids are pairwise different, at most one window is focused, no
    window lies above the counter, and no two windows share a [zIndex]. *)
Record Consistent (s : Registry) : Prop := mkConsistent {
  cons_ids : NoDup (ids (windows s));
  cons_focus : (countFocused (windows s) <= 1)%nat;
  cons_top : Forall (fun w => zIndex w <= topZIndex s) (windows s);
  cons_z : NoDup (map zIndex (windows s))
}.






(** ** The controller accessor *)

(** [useContext]: the value of the nearest enclosing provider, or the
    default given to [createContext] when there is none.  [providers] lists
    the values of the enclosing providers, nearest first. *)
Definition useContext {A : Type} (default : A) (providers : list A) : A :=
  match providers with
  | [] => default
  | v :: _ => v
  end.

(** [new Error(message)] *)
Inductive Error : Type := mkError (message : string).

(** [useWindowManager]: [createContext<...>(null)] makes the default [None];
    a provider always supplies an object, which is truthy.  A [throw] is the
    left injection. *)
Definition useWindowManager (providers : list (option Registry))
  : Error + Registry :=
  let context := useContext None providers in
  match context with
  | None => inl (mkError "useWindowManager must be used within WindowManagerProvider")
  | Some c => inr c
  end.

(** [WindowManagerProvider] wraps its children in a provider whose value is
    the current registry. *)
Definition WindowManagerProvider (s : Registry)
  (providers : list (option Registry)) : list (option Registry) :=
  Some s :: providers.

End WindowManager.

Arguments WindowState : clear implicits.
Arguments WindowDescriptor : clear implicits.
Arguments Registry : clear implicits.
Arguments Op : clear implicits.

(** ** Sample data

    Descriptors with a trivial payload, and the registries two short call
    sequences lead to. *)

Definition windowA : WindowDescriptor unit :=
  mkWindowDescriptor "a" "Notes" 0 0 400 300 false false tt.

Definition windowB : WindowDescriptor unit :=
  mkWindowDescriptor "b" "Chat" 40 40 500 350 false false tt.


(** After [openWindow(windowA)]: "a" is focused at 101. *)
Definition onlyA : Registry unit := run [Open windowA] initialRegistry.

(** After [openWindow(windowA)], [openWindow(windowB)]: "b" is focused at
    102, "a" sits below at 101. *)
Definition bOverA : Registry unit :=
  run [Open windowA; Open windowB] initialRegistry.

(** * The desktop icon: telling a click from a double click

    The [DesktopIcon] component (the file of the source without a name,
    lines 25-54).  Its [handleClick] counts clicks in [clickCountRef] and
    arms a 250 ms timer on the first one; the timer's callback and a second
    click race for the count.  The passing of time is not modelled: a
    [timeout] event is the moment an armed timer fires. *)

Module Icon.

(** Calls of the handlers received as props. *)
Inductive Call : Type := onSelect | onDoubleClick.

(** The two refs of the component, and the page's timers this component has
    armed that have neither fired nor been cleared, oldest first.  A handle
    is what [setTimeout] returned. *)
Record Refs : Type := mkRefs {
  clickCount : Z;
  clickTimeout : option nat;
  armed : list nat;
  nextHandle : nat
}.

(** [useRef(null)] and [useRef(0)]; no timer armed. *)
Definition initialRefs : Refs := mkRefs 0 None [] 1.

(** [onSelect?.()]: the prop is optional. *)
Definition callOnSelect (hasOnSelect : bool) : list Call :=
  if hasOnSelect then [onSelect] else [].

(** [clearTimeout(h)] *)
Definition clearTimeout (h : nat) (timers : list nat) : list nat :=
  remove Nat.eq_dec h timers.

(** [handleClick] *)
Definition handleClick (hasOnSelect : bool) (r : Refs) : Refs * list Call :=
  let count := clickCount r + 1 in
  if count =? 1 then
    (mkRefs count (Some (nextHandle r)) (armed r ++ [nextHandle r])
       (S (nextHandle r)),
     [])
  else if count =? 2 then
    (mkRefs 0 (clickTimeout r)
       (match clickTimeout r with
        | Some h => clearTimeout h (armed r)
        | None => armed r
        end)
       (nextHandle r),
     callOnSelect hasOnSelect ++ [onDoubleClick])
  else
    (mkRefs count (clickTimeout r) (armed r) (nextHandle r), []).

(** The callback given to [setTimeout]. *)
Definition timeoutCallback (hasOnSelect : bool) (r : Refs)
  : Refs * list Call :=
  (mkRefs 0 (clickTimeout r) (armed r) (nextHandle r),
   if clickCount r =? 1 then callOnSelect hasOnSelect else []).

Inductive Event : Type := click | timeout.

(** A click runs [handleClick].  A timeout is the oldest armed timer
    firing (all are armed for the same delay); with no timer armed there is
    nothing to fire. *)
Definition step (hasOnSelect : bool) (r : Refs) (e : Event)
  : Refs * list Call :=
  match e with
  | click => handleClick hasOnSelect r
  | timeout =>
      match armed r with
      | [] => (r, [])
      | _ :: rest =>
          timeoutCallback hasOnSelect
            (mkRefs (clickCount r) (clickTimeout r) rest (nextHandle r))
      end
  end.

(** The refs after a sequence of events and the handler calls made on the
    way, in order. *)
Fixpoint run (hasOnSelect : bool) (es : list Event) (r : Refs)
  : Refs * list Call :=
  match es with
  | [] => (r, [])
  | e :: es' =>
      let (r1, calls1) := step hasOnSelect r e in
      let (r2, calls2) := run hasOnSelect es' r1 in
      (r2, calls1 ++ calls2)
  end.

(** Between events the component is idle (count 0, no timer) or waits for a
    second click (count 1, the timer in [clickTimeoutRef] armed and no
    other). *)
Definition settled (r : Refs) : Prop :=
  (clickCount r = 0 /\ armed r = [])
  \/ (clickCount r = 1
      /\ exists h, clickTimeout r = Some h /\ armed r = [h]).

Definition isCall (c d : Call) : bool :=
  match c, d with
  | onSelect, onSelect | onDoubleClick, onDoubleClick => true
  | _, _ => false
  end.

Definition isClick (e : Event) : bool :=
  match e with click => true | timeout => false end.

End Icon.

(** * The parking assistant

    The [ParkingSF] component (lines 1-376 of the same file): its three
    tables, [checkParkingRules] and [calculateTotalCost].  The current time
    enters [checkParkingRules] through two values only, the long English
    weekday name and the hour of the day; they are its arguments here. *)

Module Parking.

Record StreetCleaningSchedule : Type := mkSchedule {
  day : string;
  time : string;
  side : string
}.

Definition STREET_CLEANING_SCHEDULES
  : list (string * list StreetCleaningSchedule) :=
  [ ("Mission",
     [ mkSchedule "Monday" "8am-10am" "West";
       mkSchedule "Thursday" "8am-10am" "East" ]);
    ("SoMa",
     [ mkSchedule "Tuesday" "12pm-2pm" "North";
       mkSchedule "Friday" "12pm-2pm" "South" ]);
    ("Financial District",
     [ mkSchedule "Monday/Wednesday" "9am-11am" "All" ]);
    ("Richmond",
     [ mkSchedule "Wednesday" "8am-10am" "North";
       mkSchedule "Thursday" "8am-10am" "South" ]);
    ("Sunset",
     [ mkSchedule "Tuesday" "8am-10am" "West";
       mkSchedule "Friday" "8am-10am" "East" ]);
    ("Marina",
     [ mkSchedule "Monday" "9am-11am" "All" ]);
    ("Haight-Ashbury",
     [ mkSchedule "Thursday" "8am-10am" "Both" ]);
    ("Castro",
     [ mkSchedule "Wednesday" "12pm-2pm" "All" ]) ].

Definition VIOLATION_COSTS : list (string * Z) :=
  [ ("Street Cleaning", 76);
    ("Expired Meter", 78);
    ("No Residential Permit", 78);
    ("Bus Zone", 288);
    ("Disabled Zone", 866);
    ("Driveway Blocking", 110);
    ("Fire Hydrant", 110);
    ("Red Zone", 110);
    ("Yellow Zone", 95);
    ("Tow + Storage", 450) ].

(** ** Reading a property of an object literal *)

(** The names every object literal answers to besides its own keys: the
    properties of [Object.prototype].  Their values are functions, or for
    [__proto__] the prototype object; all are truthy and none is a number
    or an array. *)
Definition objectPrototypeKeys : list string :=
  [ "constructor"; "hasOwnProperty"; "isPrototypeOf";
    "propertyIsEnumerable"; "toLocaleString"; "toString"; "valueOf";
    "__proto__"; "__defineGetter__"; "__defineSetter__";
    "__lookupGetter__"; "__lookupSetter__" ].

Inductive Property (A : Type) : Type :=
| own (v : A)
| inherited
| undefined.

Arguments own {A} v.
Arguments inherited {A}.
Arguments undefined {A}.

(** [table[key]] *)
Definition getProperty {A : Type} (table : list (string * A)) (key : string)
  : Property A :=
  match find (fun entry => String.eqb (fst entry) key) table with
  | Some entry => own (snd entry)
  | None =>
      if existsb (String.eqb key) objectPrototypeKeys then inherited
      else undefined
  end.

(** ** String helpers *)

(** [s.includes(part)] *)
Fixpoint includes (s part : string) : bool :=
  if String.prefix part s then true
  else match s with
       | EmptyString => false
       | String _ s' => includes s' part
       end.

(** The piece of [s] before the first [sep], and the pieces after it. *)
Fixpoint splitAt (sep : ascii) (s : string) : string * list string :=
  match s with
  | EmptyString => (EmptyString, [])
  | String c s' =>
      let (piece, pieces) := splitAt sep s' in
      if Ascii.eqb c sep then (EmptyString, piece :: pieces)
      else (String c piece, pieces)
  end.

(** [s.split(sep)] for a separator of one character. *)
Definition split (sep : ascii) (s : string) : list string :=
  let (piece, pieces) := splitAt sep s in piece :: pieces.

Definition isDigit (c : ascii) : bool :=
  (48 <=? nat_of_ascii c)%nat && (nat_of_ascii c <=? 57)%nat.

(** [s.replace(/\D/g, '')] *)
Fixpoint removeNonDigits (s : string) : string :=
  match s with
  | EmptyString => EmptyString
  | String c s' =>
      if isDigit c then String c (removeNonDigits s') else removeNonDigits s'
  end.

Fixpoint decimalValue (acc : Z) (digits : string) : Z :=
  match digits with
  | EmptyString => acc
  | String c digits' =>
      decimalValue (10 * acc + (Z.of_nat (nat_of_ascii c) - 48)) digits'
  end.

(** [parseInt(digits)] on a string of decimal digits, which is all it is
    given here: [NaN], modelled as [None], for the empty string and the
    decimal value otherwise. *)
Definition parseInt (digits : string) : option Z :=
  match digits with
  | EmptyString => None
  | _ => Some (decimalValue 0 digits)
  end.

(** [a >= b] and [a < b] with [b] possibly [NaN]: false on [NaN]. *)
Definition geNumber (a : Z) (b : option Z) : bool :=
  match b with Some n => n <=? a | None => false end.

Definition ltNumber (a : Z) (b : option Z) : bool :=
  match b with Some n => a <? n | None => false end.

(** A template literal prints a missing value as the word undefined. *)
Definition interpolate (v : option string) : string :=
  match v with Some text => text | None => "undefined" end.

(** ** [checkParkingRules] *)

Inductive RuleType : Type := allowed | restricted | forbidden.

Record ParkingRule : Type := mkParkingRule {
  type : RuleType;
  reason : string;
  cost : option Z;
  timeUntilChange : option string;
  nextChange : option string
}.

(** The callback of [schedule.find]: [None] when it throws a [TypeError]
    (the time has no dash, so [end] is undefined and [end.replace] fails). *)
Definition inCleaningTime (currentDay : string) (currentHour : Z)
  (s : StreetCleaningSchedule) : option bool :=
  if negb (includes (day s) currentDay) then Some false
  else
    match split "-" (time s) with
    | start :: finish :: _ =>
        let startHour := parseInt (removeNonDigits start) in
        let endHour := parseInt (removeNonDigits finish) in
        Some (geNumber currentHour startHour && ltNumber currentHour endHour)
    | _ => None
    end.

(** [array.find(callback)] with a callback that may throw: [None] when it
    throws, [Some None] when no element is found. *)
Fixpoint findOrThrow {A : Type} (callback : A -> option bool) (l : list A)
  : option (option A) :=
  match l with
  | [] => Some None
  | a :: l' =>
      match callback a with
      | None => None
      | Some true => Some (Some a)
      | Some false => findOrThrow callback l'
      end
  end.

(** What a call of [checkParkingRules] hands to the two state setters:
    [setSelectedDistrict] is always called; [setParkingRule] is not reached
    ([None]) when a [TypeError] is thrown on the way. *)
Record RuleCheck : Type := mkRuleCheck {
  selectedDistrict : string;
  parkingRule : option ParkingRule
}.

Definition checkParkingRules (district currentDay : string) (currentHour : Z)
  : RuleCheck :=
  mkRuleCheck district
    match getProperty STREET_CLEANING_SCHEDULES district with
    | inherited => None
    | found =>
        let schedule := match found with own v => v | _ => [] end in
        match findOrThrow (inCleaningTime currentDay currentHour) schedule with
        | None => None
        | Some (Some activeCleaningSchedule) =>
            let endTime :=
              nth_error (split "-" (time activeCleaningSchedule)) 1 in
            Some (mkParkingRule forbidden
                    ("Street Cleaning Active ("
                       ++ side activeCleaningSchedule ++ " side)")%string
                    match getProperty VIOLATION_COSTS "Street Cleaning" with
                    | own c => Some c
                    | _ => None
                    end
                    endTime
                    (Some ("Parking allowed after "
                             ++ interpolate endTime)%string))
        | Some None =>
            let nextSchedule := nth_error schedule 0 in
            Some (mkParkingRule allowed "Parking currently allowed" None None
                    (Some match nextSchedule with
                          | Some next =>
                              ("Next street cleaning: " ++ day next ++ " "
                                 ++ time next)%string
                          | None => "No scheduled street cleaning"
                          end))
        end
    end.

(** The seven values of
    [toLocaleDateString('en-US', { weekday: 'long' })]. *)
Inductive Weekday : Type :=
| Sunday | Monday | Tuesday | Wednesday | Thursday | Friday | Saturday.

Definition weekdayLong (d : Weekday) : string :=
  match d with
  | Sunday => "Sunday" | Monday => "Monday" | Tuesday => "Tuesday"
  | Wednesday => "Wednesday" | Thursday => "Thursday" | Friday => "Friday"
  | Saturday => "Saturday"
  end.

Definition isWeekday (a b : Weekday) : bool :=
  match a, b with
  | Sunday, Sunday | Monday, Monday | Tuesday, Tuesday
  | Wednesday, Wednesday | Thursday, Thursday | Friday, Friday
  | Saturday, Saturday => true
  | _, _ => false
  end.

(** The table read by a person, for comparison with what
    [checkParkingRules] reports: district, weekdays, first hour and the
    hour after the last, for the slots that lie in the morning.  The three
    noon slots (SoMa twice, Castro) are left out on purpose. *)
Definition morningSlots : list (string * list Weekday * Z * Z) :=
  [ ("Mission", [Monday], 8, 10);
    ("Mission", [Thursday], 8, 10);
    ("Financial District", [Monday; Wednesday], 9, 11);
    ("Richmond", [Wednesday], 8, 10);
    ("Richmond", [Thursday], 8, 10);
    ("Sunset", [Tuesday], 8, 10);
    ("Sunset", [Friday], 8, 10);
    ("Marina", [Monday], 9, 11);
    ("Haight-Ashbury", [Thursday], 8, 10) ].

Definition inMorningSlot (district : string) (d : Weekday) (hour : Z)
  : bool :=
  existsb (fun slot =>
             match slot with
             | (name, days, first, after) =>
                 String.eqb name district && existsb (isWeekday d) days
                 && (first <=? hour) && (hour <? after)
             end) morningSlots.

Definition isForbidden (check : RuleCheck) : bool :=
  match parkingRule check with
  | Some rule => match type rule with forbidden => true | _ => false end
  | None => false
  end.

(** ** [calculateTotalCost] *)

(** The running value of the [reduce]: a number, or a string once a value
    that is not a number has been added to it. *)
Inductive Total : Type :=
| number (n : Z)
| text.

(** [sum + (VIOLATION_COSTS[v] || 0)] *)
Definition addCost (sum : Total) (v : string) : Total :=
  match sum with
  | text => text
  | number n =>
      match getProperty VIOLATION_COSTS v with
      | own c => number (n + (if c =? 0 then 0 else c))
      | inherited => text
      | undefined => number (n + 0)
      end
  end.

(** [violations.reduce(..., 0)] *)
Definition calculateTotalCost (violations : list string) : Total :=
  fold_left addCost violations (number 0).

End Parking.

(** * The chat route

    The [POST] handler (lines 565-783 of the same file): what it answers to
    a request, the prompt it builds from the conversation, and how it turns
    the messages of the agent SDK into frames of the event stream.  The SDK
    call itself is outside the source; its messages are the input of
    [start]. *)

Module Chat.

Definition SYSTEM_PROMPT : string :=
  "You are a helpful personal assistant designed to help with general research, questions, and tasks.

Your role is to:
- Answer questions on any topic accurately and thoroughly
- Help with research by searching the web for current information
- Assist with writing, editing, and brainstorming
- Provide explanations and summaries of complex topics
- Help solve problems and think through decisions

Guidelines:
- Be friendly, clear, and conversational
- Use web search when you need current information, facts you're unsure about, or real-time data
- Keep responses concise but complete - expand when the topic warrants depth
- Use markdown formatting when it helps readability (bullet points, code blocks, etc.)
- Be honest when you don't know something and offer to search for answers".

(** Line feed, the [\n] of the template literals. *)
Definition lf : string := String "010"%char EmptyString.

(** [MessageInput].  The role is kept as the text it is at run time: the
    code compares it with ['user'] and treats every other role alike. *)
Record MessageInput : Type := mkMessage {
  role : string;
  content : string
}.

(** The [content] of an entry of the [messages] array as it can arrive, by
    what [POST] does with it: it prints it in a template literal and reads
    the [length] of the last user message's content. *)
Inductive Content : Type :=
| textContent (text : string)
  (** a string *)
| absentContent
  (** no [content] property: prints as the word undefined, and reading its
      [length] throws *)
| nullContent
  (** [null]: prints as the word null, and reading its [length] throws *)
| otherContent (printed : option string).
  (** a number, boolean, array or object: its [length] can be read; it
      prints as [printed], or printing throws ([None]: an object whose own
      [toString] is not a function) *)

(** An entry of the [messages] array as it can arrive.  [null] has no
    properties to read.  Of any other value [POST] reads [role], here the
    string it holds if it holds one, and [content]; a number, a string, a
    boolean or an array has neither. *)
Inductive Entry : Type :=
| nullEntry
| valueEntry (entryRole : option string) (entryContent : Content).

(** What [await request.json()] yields, as far as [POST] looks at it. *)
Inductive RequestBody : Type :=
| unparsable
  (** the body is not JSON: [request.json()] rejects *)
| jsonNull
  (** the body is [null]: destructuring [messages] from it throws *)
| jsonValue (messages : option (list MessageInput))
  (** any other value; [messages] is [Some] when its [messages] property is
      an array of messages as the type says (objects with a string [role]
      and a string [content]), and [None] when it is not an array *)
| jsonEntries (entries : list Entry).
  (** any other value whose [messages] property is an array, with entries
      of any kind *)

Inductive ResponseBody : Type :=
| json (error : string)
  (** [JSON.stringify({ error })] *)
| eventStream (prompt : string).
  (** the [ReadableStream] fed by [query({ prompt, ... })] *)

Record Response : Type := mkResponse {
  status : Z;
  headers : list (string * string);
  responseBody : ResponseBody
}.

Definition isUser (m : MessageInput) : bool := String.eqb (role m) "user".

(** [array.pop()]: the last element, if any. *)
Fixpoint pop {A : Type} (l : list A) : option A :=
  match l with
  | [] => None
  | [a] => Some a
  | _ :: l' => pop l'
  end.

(** [strings.join(sep)] *)
Fixpoint join (sep : string) (l : list string) : string :=
  match l with
  | [] => EmptyString
  | [a] => a
  | a :: l' => (a ++ sep ++ join sep l')%string
  end.

(** [`${m.role === 'user' ? 'User' : 'Assistant'}: ${m.content}`] *)
Definition renderMessage (m : MessageInput) : string :=
  ((if isUser m then "User" else "Assistant") ++ ": " ++ content m)%string.

(** [messages.slice(0, -1).map(...).join('\n\n')] *)
Definition conversationContext (messages : list MessageInput) : string :=
  join (lf ++ lf)%string (map renderMessage (removelast messages)).

Definition fullPrompt (messages : list MessageInput)
  (lastUserMessage : MessageInput) : string :=
  match conversationContext messages with
  | EmptyString =>
      (SYSTEM_PROMPT ++ lf ++ lf ++ "User: "
         ++ content lastUserMessage)%string
  | context =>
      (SYSTEM_PROMPT ++ lf ++ lf ++ "Previous conversation:" ++ lf
         ++ context ++ lf ++ lf ++ "User: "
         ++ content lastUserMessage)%string
  end.

Definition jsonHeaders : list (string * string) :=
  [("Content-Type", "application/json")].

Definition streamHeaders : list (string * string) :=
  [("Content-Type", "text/event-stream"); ("Cache-Control", "no-cache");
   ("Connection", "keep-alive")].

(** The answer of the outer [catch]. *)
Definition serverError : Response :=
  mkResponse 500 jsonHeaders
    (json "Failed to process chat request. Check server logs for details.").

(** [`${content}`]: [None] when printing throws. *)
Definition printed (c : Content) : option string :=
  match c with
  | textContent text => Some text
  | absentContent => Some "undefined"
  | nullContent => Some "null"
  | otherContent shown => shown
  end.

(** Whether [content.length] can be read without a [TypeError]. *)
Definition hasLength (c : Content) : bool :=
  match c with
  | absentContent | nullContent => false
  | textContent _ | otherContent _ => true
  end.

Definition isNullEntry (e : Entry) : bool :=
  match e with nullEntry => true | valueEntry _ _ => false end.

(** [m.role === 'user'] on an entry that is not [null]. *)
Definition entryIsUser (e : Entry) : bool :=
  match e with
  | valueEntry (Some r) _ => String.eqb r "user"
  | _ => false
  end.

Definition contentOf (e : Entry) : Content :=
  match e with
  | valueEntry _ c => c
  | nullEntry => absentContent
  end.

(** The callback of [map] on an entry: [None] when it throws. *)
Definition renderEntry (e : Entry) : option string :=
  match e with
  | nullEntry => None
  | valueEntry _ c =>
      match printed c with
      | Some shown =>
          Some ((if entryIsUser e then "User" else "Assistant") ++ ": "
                  ++ shown)%string
      | None => None
      end
  end.

(** [entries.map(callback)]: [None] when the callback throws on an entry. *)
Fixpoint renderEntries (entries : list Entry) : option (list string) :=
  match entries with
  | [] => Some []
  | e :: entries' =>
      match renderEntry e, renderEntries entries' with
      | Some line, Some lines => Some (line :: lines)
      | _, _ => None
      end
  end.

(** [fullPrompt] from the context and the printed content of the last user
    message. *)
Definition promptFor (context question : string) : string :=
  match context with
  | EmptyString => (SYSTEM_PROMPT ++ lf ++ lf ++ "User: " ++ question)%string
  | _ =>
      (SYSTEM_PROMPT ++ lf ++ lf ++ "Previous conversation:" ++ lf
         ++ context ++ lf ++ lf ++ "User: " ++ question)%string
  end.

(** The body of the [try] on an array with entries of any kind.  The
    callback of [filter] throws on a [null] entry, before anything is
    decided; the templates throw on a content that cannot be printed, and
    [lastUserMessage.content.length] on a content without [length]; every
    throw ends in the outer [catch]. *)
Definition answerEntries (entries : list Entry) : Response :=
  if existsb isNullEntry entries then serverError
  else
    match pop (filter entryIsUser entries) with
    | None => mkResponse 400 jsonHeaders (json "No user message found")
    | Some lastUserMessage =>
        match renderEntries (removelast entries),
              printed (contentOf lastUserMessage) with
        | Some lines, Some question =>
            if hasLength (contentOf lastUserMessage) then
              mkResponse 200 streamHeaders
                (eventStream (promptFor (join (lf ++ lf)%string lines)
                                question))
            else serverError
        | _, _ => serverError
        end
    end.

(** An entry as the type [MessageInput] describes it. *)
Definition typedEntry (m : MessageInput) : Entry :=
  valueEntry (Some (role m)) (textContent (content m)).

(** [POST]; a [Response] built without a status has status 200. *)
Definition POST (request : RequestBody) : Response :=
  match request with
  | unparsable | jsonNull =>
      mkResponse 500 jsonHeaders
        (json "Failed to process chat request. Check server logs for details.")
  | jsonValue None =>
      mkResponse 400 jsonHeaders (json "Messages array is required")
  | jsonValue (Some messages) =>
      match pop (filter isUser messages) with
      | None => mkResponse 400 jsonHeaders (json "No user message found")
      | Some lastUserMessage =>
          mkResponse 200 streamHeaders
            (eventStream (fullPrompt messages lastUserMessage))
      end
  | jsonEntries entries => answerEntries entries
  end.

(** ** The event stream *)

(** The messages of the SDK, by the properties [start] reads. *)
Inductive Delta : Type :=
| text_delta (text : string)
| otherDelta.

Inductive StreamEvent : Type :=
| content_block_delta (delta : option Delta)
| otherEvent.

Inductive ContentBlock : Type :=
| tool_use (name : string)
| otherBlock.

Inductive SDKMessage : Type :=
| stream_event (event : option StreamEvent)
  (** [None]: the message has no [event] property *)
| assistantMessage (blocks : option (list ContentBlock))
  (** [None]: no [message] property, or its content is not an array *)
| tool_progress (tool_name : string) (elapsed_time_seconds : Z)
| result (subtype : string)
| otherMessage.

(** What [controller.enqueue] is given: [data: ] followed by the JSON of
    the payload, or by [[DONE]], and a blank line. *)
Inductive Frame : Type :=
| textDeltaFrame (text : string)
| toolStartFrame (tool : string)
| toolProgressFrame (tool : string) (elapsed : Z)
| doneFrame
| errorFrame (message : string)
| endMarker.

(** The variables of [POST] that [start] updates, and the frames enqueued
    so far. *)
Record StreamState : Type := mkStreamState {
  frames : list Frame;
  streamChunkCount : Z;
  toolsExecuted : Z;
  toolExecutions : list string
}.

Definition initialStream : StreamState := mkStreamState [] 0 0 [].

Definition enqueue (f : Frame) (st : StreamState) : StreamState :=
  mkStreamState (frames st ++ [f]) (streamChunkCount st) (toolsExecuted st)
    (toolExecutions st).

(** The body of [for (const block of content)]. *)
Definition onBlock (st : StreamState) (block : ContentBlock) : StreamState :=
  match block with
  | tool_use name =>
      enqueue (toolStartFrame name)
        (mkStreamState (frames st) (streamChunkCount st)
           (toolsExecuted st + 1) (toolExecutions st ++ [name]))
  | otherBlock => st
  end.

(** The body of [for await (const message of query(...))]: its five [if]s
    test the type of the message and so exclude one another, but for the
    last two, which split the results. *)
Definition onMessage (st : StreamState) (message : SDKMessage)
  : StreamState :=
  match message with
  | stream_event (Some (content_block_delta (Some (text_delta text)))) =>
      enqueue (textDeltaFrame text)
        (mkStreamState (frames st) (streamChunkCount st + 1)
           (toolsExecuted st) (toolExecutions st))
  | stream_event _ => st
  | assistantMessage (Some blocks) => fold_left onBlock blocks st
  | assistantMessage None => st
  | tool_progress tool elapsed => enqueue (toolProgressFrame tool elapsed) st
  | result subtype =>
      if String.eqb subtype "success" then enqueue doneFrame st
      else enqueue (errorFrame "Query did not complete successfully") st
  | otherMessage => st
  end.

(** [start(controller)]: the SDK yields [messages] and then either ends or
    throws ([throws]); the stream is closed in both cases. *)
Definition start (messages : list SDKMessage) (throws : bool) : StreamState :=
  let st := fold_left onMessage messages initialStream in
  if throws then enqueue (errorFrame "Stream error occurred") st
  else enqueue endMarker st.

(** The texts of the text frames and the tools of the tool-start frames. *)
Definition frameText (f : Frame) : list string :=
  match f with textDeltaFrame text => [text] | _ => [] end.

Definition frameTool (f : Frame) : list string :=
  match f with toolStartFrame tool => [tool] | _ => [] end.

(** The texts of the text deltas among the SDK's messages and the names of
    its tool-use blocks. *)
Definition messageText (m : SDKMessage) : list string :=
  match m with
  | stream_event (Some (content_block_delta (Some (text_delta text)))) =>
      [text]
  | _ => []
  end.

Definition blockTool (b : ContentBlock) : list string :=
  match b with tool_use name => [name] | otherBlock => [] end.

Definition messageTools (m : SDKMessage) : list string :=
  match m with
  | assistantMessage (Some blocks) => flat_map blockTool blocks
  | _ => []
  end.

End Chat.

(** * Properties *)

Section Properties.

Context {Payload : Type}.

Implicit Types (w : WindowState Payload) (ws : list (WindowState Payload)).
Implicit Types (s : Registry Payload) (i : string) (o : Op Payload).
Implicit Types (F G : WindowState Payload -> WindowState Payload).

(** ** Identifiers *)

Lemma hasId_true i w : hasId i w = true <-> id w = i.
Proof. unfold hasId. apply String.eqb_eq. Qed.

Lemma hasId_false i w : hasId i w = false <-> id w <> i.
Proof. unfold hasId. apply String.eqb_neq. Qed.

Lemma find_hasId_None i ws : find (hasId i) ws = None <-> ~ In i (ids ws).
Proof.
  induction ws as [|w ws IH]; simpl.
  - tauto.
  - destruct (hasId i w) eqn:E.
    + apply hasId_true in E. split; [discriminate | intros H; exfalso; auto].
    + apply hasId_false in E. rewrite IH. tauto.
Qed.

Lemma find_hasId_Some i ws w :
  find (hasId i) ws = Some w -> In w ws /\ id w = i.
Proof.
  intros H. apply find_some in H. destruct H as [H1 H2].
  apply hasId_true in H2. auto.
Qed.

Lemma in_ids w ws : In w ws -> In (id w) (ids ws).
Proof. intros H. unfold ids. apply in_map. exact H. Qed.

Lemma countId_absent i ws : ~ In i (ids ws) -> countId i ws = 0%nat.
Proof.
  unfold countId. induction ws as [|w ws IH]; simpl; intros H.
  - reflexivity.
  - destruct (hasId i w) eqn:E.
    + apply hasId_true in E. exfalso. auto.
    + apply IH. tauto.
Qed.

Lemma countId_NoDup i ws : NoDup (ids ws) -> (countId i ws <= 1)%nat.
Proof.
  unfold countId. induction ws as [|w ws IH]; simpl; intros H.
  - lia.
  - inversion H as [|? ? Hnotin Hnd]; subst.
    destruct (hasId i w) eqn:E; simpl.
    + apply hasId_true in E. subst i.
      pose proof (countId_absent _ _ Hnotin) as H0.
      unfold countId in H0. rewrite H0. lia.
    + auto.
Qed.

Lemma countId_present i ws : In i (ids ws) -> (1 <= countId i ws)%nat.
Proof.
  unfold countId. induction ws as [|w ws IH]; simpl; intros H.
  - contradiction.
  - destruct (hasId i w) eqn:E; simpl.
    + lia.
    + apply hasId_false in E. destruct H as [H|H]; [contradiction | auto].
Qed.

(** ** The conditional maps of the callbacks *)

Lemma ids_map F ws :
  (forall w, id (F w) = id w) -> ids (map F ws) = ids ws.
Proof.
  intros HF. unfold ids. rewrite map_map. apply map_ext. exact HF.
Qed.

Lemma ids_map_cond i F G ws :
  (forall w, id (F w) = id w) -> (forall w, id (G w) = id w) ->
  ids (map (fun w => if hasId i w then F w else G w) ws) = ids ws.
Proof.
  intros HF HG. apply ids_map. intros w. destruct (hasId i w); auto.
Qed.

Lemma map_cond_absent i F G ws :
  ~ In i (ids ws) ->
  map (fun w => if hasId i w then F w else G w) ws = map G ws.
Proof.
  intros H. apply map_ext_in. intros w Hw.
  destruct (hasId i w) eqn:E; [|reflexivity].
  apply hasId_true in E. subst i. exfalso. apply H, in_ids, Hw.
Qed.

Lemma map_cond_id_absent i F ws :
  ~ In i (ids ws) ->
  map (fun w => if hasId i w then F w else w) ws = ws.
Proof.
  intros H. rewrite (map_cond_absent i F (fun w => w) ws H). apply map_id.
Qed.

Lemma filter_absent i ws :
  ~ In i (ids ws) -> filter (fun w => negb (hasId i w)) ws = ws.
Proof.
  induction ws as [|w ws IH]; simpl; intros H.
  - reflexivity.
  - destruct (hasId i w) eqn:E; simpl.
    + apply hasId_true in E. exfalso. auto.
    + f_equal. apply IH. tauto.
Qed.

(** ** Counting focused windows *)

Lemma countFocused_map_le F ws :
  (forall w, isFocused (F w) = true -> isFocused w = true) ->
  (countFocused (map F ws) <= countFocused ws)%nat.
Proof.
  intros HF. unfold countFocused.
  induction ws as [|w ws IH]; simpl.
  - lia.
  - destruct (isFocused (F w)) eqn:E.
    + rewrite (HF w E). simpl. lia.
    + destruct (isFocused w); simpl; lia.
Qed.

Lemma countFocused_map_cond i F G ws :
  (forall w, isFocused (F w) = true) -> (forall w, isFocused (G w) = false) ->
  countFocused (map (fun w => if hasId i w then F w else G w) ws)
  = countId i ws.
Proof.
  intros HF HG. unfold countFocused, countId.
  induction ws as [|w ws IH]; simpl.
  - reflexivity.
  - destruct (hasId i w); [rewrite HF | rewrite HG]; simpl; congruence.
Qed.

Lemma countFocused_unfocus ws : countFocused (map unfocus ws) = 0%nat.
Proof.
  unfold countFocused. induction ws as [|w ws IH]; simpl; auto.
Qed.

Lemma countFocused_app ws1 ws2 :
  countFocused (ws1 ++ ws2) = (countFocused ws1 + countFocused ws2)%nat.
Proof.
  unfold countFocused. rewrite filter_app, length_app. reflexivity.
Qed.

Lemma countFocused_filter (p : WindowState Payload -> bool) ws :
  (countFocused (filter p ws) <= countFocused ws)%nat.
Proof.
  unfold countFocused. induction ws as [|w ws IH]; simpl.
  - lia.
  - destruct (p w); simpl; destruct (isFocused w); simpl; lia.
Qed.

(** ** Stacking values *)

Lemma zs_map F ws :
  (forall w, zIndex (F w) = zIndex w) ->
  map zIndex (map F ws) = map zIndex ws.
Proof.
  intros HF. rewrite map_map. apply map_ext. exact HF.
Qed.

Lemma below_top_map F (t t' : Z) ws :
  (forall w, zIndex w <= t -> zIndex (F w) <= t') ->
  Forall (fun w => zIndex w <= t) ws ->
  Forall (fun w => zIndex w <= t') (map F ws).
Proof.
  intros HF H. induction H as [|w ws Hw _ IH]; simpl; constructor; auto.
Qed.

Lemma above_all_fresh (t newZ : Z) ws :
  Forall (fun w => zIndex w <= t) ws -> t < newZ ->
  ~ In newZ (map zIndex ws).
Proof.
  intros H Hlt Hin. apply in_map_iff in Hin. destruct Hin as [w [Hz Hw]].
  rewrite Forall_forall in H. specialize (H w Hw). simpl in H. lia.
Qed.

Lemma distinct_z_map_cond i F G (t newZ : Z) ws :
  (forall w, zIndex (F w) = newZ) -> (forall w, zIndex (G w) = zIndex w) ->
  t < newZ ->
  NoDup (ids ws) -> Forall (fun w => zIndex w <= t) ws ->
  NoDup (map zIndex ws) ->
  NoDup (map zIndex (map (fun w => if hasId i w then F w else G w) ws)).
Proof.
  intros HF HG Hlt. induction ws as [|w ws IH]; simpl; intros Hid Htop Hz.
  - constructor.
  - inversion Hid as [|? ? Hid1 Hid2]; subst.
    inversion Htop as [|? ? Htop1 Htop2]; subst.
    inversion Hz as [|? ? Hz1 Hz2]; subst.
    destruct (hasId i w) eqn:E.
    + apply hasId_true in E. subst i.
      rewrite (map_cond_absent _ F G ws Hid1), (zs_map G ws HG), HF.
      constructor; [|exact Hz2].
      apply (above_all_fresh t); assumption.
    + rewrite HG. constructor; [|apply IH; assumption].
      intros Hin. apply in_map_iff in Hin. destruct Hin as [w1 [Hw1 Hin]].
      apply in_map_iff in Hin. destruct Hin as [w2 [Hw2 Hin]]. subst w1.
      destruct (hasId i w2).
      * rewrite HF in Hw1. lia.
      * rewrite HG in Hw1. apply Hz1. rewrite <- Hw1. apply in_map, Hin.
Qed.

(** Dropping windows keeps any observation of them free of repeats. *)
Lemma filter_keeps_distinct {B : Type} (obs : WindowState Payload -> B)
  (keep : WindowState Payload -> bool) ws :
  NoDup (map obs ws) -> NoDup (map obs (filter keep ws)).
Proof.
  intros Hnd. induction ws as [|w ws IH]; simpl in *.
  - exact Hnd.
  - inversion Hnd as [|? ? Hfresh Hrest]; subst.
    destruct (keep w); simpl; [|auto].
    constructor; [|auto].
    intros Hin. apply Hfresh. apply in_map_iff in Hin.
    destruct Hin as [w' [Hw' Hin]]. apply filter_In in Hin.
    rewrite <- Hw'. apply in_map. tauto.
Qed.

(** ** Every callback keeps the registry consistent *)

Lemma Consistent_initial : Consistent (@initialRegistry Payload).
Proof.
  constructor; simpl; try constructor. unfold countFocused. simpl. lia.
Qed.

(** The callbacks that rewrite one window in place and keep its id, its
    [zIndex] and do not give it focus. *)
Lemma Consistent_update i F s :
  (forall w, id (F w) = id w) -> (forall w, zIndex (F w) = zIndex w) ->
  (forall w, isFocused (F w) = true -> isFocused w = true) ->
  Consistent s ->
  Consistent {| windows := map (fun w => if hasId i w then F w else w)
                               (windows s);
                topZIndex := topZIndex s |}.
Proof.
  intros Hid Hz Hf [C1 C2 C3 C4]. constructor; simpl.
  - rewrite (ids_map_cond i F (fun w => w)); auto.
  - etransitivity; [|exact C2]. apply countFocused_map_le.
    intros w. destruct (hasId i w); auto.
  - apply (below_top_map _ (topZIndex s)); [|exact C3].
    intros w Hw. destruct (hasId i w); [rewrite Hz|]; exact Hw.
  - rewrite zs_map; [exact C4|]. intros w. destruct (hasId i w); auto.
Qed.

(** The callbacks that hand the next stacking value to one window and take
    focus away from the others. *)
Lemma Consistent_bring i F s :
  (forall w, id (F w) = id w) ->
  (forall w, zIndex (F w) = topZIndex s + 1) ->
  (forall w, isFocused (F w) = true) ->
  Consistent s ->
  Consistent {| windows := map (fun w => if hasId i w then F w else unfocus w)
                               (windows s);
                topZIndex := topZIndex s + 1 |}.
Proof.
  intros Hid Hz Hf [C1 C2 C3 C4]. constructor; simpl.
  - rewrite ids_map_cond; auto.
  - rewrite countFocused_map_cond; auto. apply countId_NoDup, C1.
  - apply (below_top_map _ (topZIndex s)); [|exact C3].
    intros w Hw. destruct (hasId i w); [rewrite Hz|simpl]; lia.
  - apply (distinct_z_map_cond i F unfocus (topZIndex s) (topZIndex s + 1));
      auto. lia.
Qed.

Lemma Consistent_openWindow window s :
  Consistent s -> Consistent (openWindow window s).
Proof.
  intros C. unfold openWindow.
  destruct (find (hasId (d_id window)) (windows s)) as [existing|] eqn:E.
  - destruct (isMinimized existing); apply Consistent_bring; auto.
  - apply find_hasId_None in E. destruct C as [C1 C2 C3 C4].
    constructor; simpl.
    + unfold ids. rewrite map_app. simpl. fold (ids (map unfocus (windows s))).
      rewrite ids_map by reflexivity.
      apply NoDup_app; [exact C1 | repeat constructor; simpl; tauto |].
      intros a Ha [Hb|[]]. subst a. auto.
    + rewrite countFocused_app, countFocused_unfocus.
      unfold countFocused. simpl. lia.
    + apply Forall_app. split.
      * apply (below_top_map _ (topZIndex s)); [|exact C3].
        intros w Hw. simpl. lia.
      * repeat constructor. simpl. lia.
    + rewrite map_app, zs_map by reflexivity. simpl.
      apply NoDup_app; [exact C4 | repeat constructor; simpl; tauto |].
      intros a Ha [Hb|[]]. subst a.
      revert Ha. apply (above_all_fresh (topZIndex s) (topZIndex s + 1));
        [exact C3 | lia].
Qed.

Lemma Consistent_closeWindow i s :
  Consistent s -> Consistent (closeWindow i s).
Proof.
  intros [C1 C2 C3 C4]. constructor; simpl.
  - apply filter_keeps_distinct, C1.
  - etransitivity; [apply countFocused_filter | exact C2].
  - apply incl_Forall with (l1 := windows s); [|exact C3].
    apply incl_filter.
  - apply filter_keeps_distinct, C4.
Qed.

Lemma Consistent_step s o : Consistent s -> Consistent (step s o).
Proof.
  intros C. destruct o; simpl.
  - apply Consistent_openWindow, C.
  - apply Consistent_closeWindow, C.
  - apply Consistent_update; auto. simpl. discriminate.
  - apply Consistent_update; auto.
  - apply Consistent_bring; auto.
  - apply Consistent_bring; auto.
  - apply Consistent_update; auto.
  - apply Consistent_update; auto.
Qed.

Lemma Consistent_run ops s : Consistent s -> Consistent (run ops s).
Proof.
  revert s. unfold run.
  induction ops as [|o ops IH]; simpl; intros s C.
  - exact C.
  - apply IH, Consistent_step, C.
Qed.

Lemma Consistent_reachable (ops : list (Op Payload)) :
  Consistent (run ops initialRegistry).
Proof. apply Consistent_run, Consistent_initial. Qed.

Lemma unique_by_id ws w1 w2 :
  NoDup (ids ws) -> In w1 ws -> In w2 ws -> id w1 = id w2 -> w1 = w2.
Proof.
  induction ws as [|a ws IH]; simpl; intros Hnd H1 H2 E.
  - contradiction.
  - inversion Hnd as [|? ? Hnotin Hnd']; subst.
    destruct H1 as [H1|H1], H2 as [H2|H2]; subst.
    + reflexivity.
    + exfalso. apply Hnotin. rewrite E. apply in_ids, H2.
    + exfalso. apply Hnotin. rewrite <- E. apply in_ids, H1.
    + apply IH; assumption.
Qed.

(** ** Single focus *)

(** C1. Whatever sequence of the eight operations is applied from the
    initial empty registry, after each of them (that is, after every prefix
    of the sequence) at most one record has [isFocused = true]. *)
Theorem single_focus (ops : list (Op Payload)) (n : nat) :
  (countFocused (windows (run (firstn n ops) initialRegistry)) <= 1)%nat.
Proof.
  apply cons_focus, Consistent_reachable.
Qed.

(** ** Minimized windows and focus *)








(** ** Calls on an id that is not in the registry *)

(** C3, as amended.  When no record carries the id, [restore] and [focus]
    keep the number and the order of the records and, in every record, the
    id, title, position, size, [zIndex], [isMinimized], [isMaximized] and
    payload; they set [isFocused = false] in every record and add exactly 1
    to [topZIndex]. *)
Theorem restore_focus_absent s i :
  ~ In i (ids (windows s)) ->
  let cleared :=
    {| windows :=
         map (fun w => mkWindowState (id w) (title w) (x w) (y w) (width w)
                         (height w) (zIndex w) (isMinimized w)
                         (isMaximized w) false (payload w)) (windows s);
       topZIndex := topZIndex s + 1 |} in
  restoreWindow i s = cleared /\ focusWindow i s = cleared.
Proof.
  intros H cleared. unfold restoreWindow, focusWindow, cleared.
  rewrite !map_cond_absent by exact H. split; reflexivity.
Qed.

(** ** Allocation of stacking values *)

Lemma topZIndex_focusAffecting s o :
  focusAffecting o = true -> topZIndex (step s o) = topZIndex s + 1.
Proof. destruct o; simpl; intros H; try discriminate; reflexivity. Qed.

Lemma topZIndex_step_mono s o : topZIndex s <= topZIndex (step s o).
Proof. destruct o; simpl; lia. Qed.

Lemma topZIndex_run_mono ops s : topZIndex s <= topZIndex (run ops s).
Proof.
  revert s. unfold run. induction ops as [|o ops IH]; simpl; intros s.
  - lia.
  - specialize (IH (step s o)). pose proof (topZIndex_step_mono s o). lia.
Qed.

Lemma run_app ops1 ops2 s : run (ops1 ++ ops2) s = run ops2 (run ops1 s).
Proof. unfold run. apply fold_left_app. Qed.

(** Where a record of the registry after a call comes from: it is the image
    of a record with the same id, carrying that record's [zIndex] or the
    new top value, or it is the record [openWindow] built for a new id. *)
Lemma step_origin s o w' :
  In w' (windows (step s o)) ->
  (exists w, In w (windows s) /\ id w' = id w
             /\ (zIndex w' = zIndex w
                 \/ (id w' = target o /\ focusAffecting o = true
                     /\ zIndex w' = topZIndex s + 1)))
  \/ (exists window, o = Open window /\ ~ In (d_id window) (ids (windows s))
                     /\ w' = ofDescriptor window (topZIndex s + 1)).
Proof.
  assert (Hmap : forall i F G,
             (forall w, id (F w) = id w) -> (forall w, id (G w) = id w) ->
             (forall w, zIndex (G w) = zIndex w) ->
             In w' (map (fun w => if hasId i w then F w else G w) (windows s))
             -> exists w, In w (windows s) /\ id w' = id w
                          /\ (zIndex w' = zIndex w
                              \/ (id w' = i /\ w' = F w))).
  { intros i F G HF HG HGz Hin. apply in_map_iff in Hin.
    destruct Hin as [w [E Hin]]. exists w. split; [exact Hin|].
    destruct (hasId i w) eqn:Ew; subst w'.
    - apply hasId_true in Ew. rewrite HF. auto.
    - rewrite HG, HGz. auto. }
  destruct o as [window|i|i|i|i|i|i nx ny|i nw nh]; simpl; intros Hin.
  - unfold openWindow in Hin. simpl in Hin.
    destruct (find (hasId (d_id window)) (windows s)) as [existing|] eqn:E.
    + left. destruct (isMinimized existing);
        apply Hmap in Hin; auto;
        destruct Hin as [w [Hw [Hid [Hz|[Ht Hr]]]]]; exists w;
        repeat split; auto; right; subst w'; auto.
    + apply find_hasId_None in E. apply in_app_iff in Hin.
      destruct Hin as [Hin|[Hin|[]]].
      * left. apply in_map_iff in Hin. destruct Hin as [w [Ew Hin]].
        exists w. subst w'. auto.
      * right. exists window. auto.
  - left. apply filter_In in Hin. exists w'. tauto.
  - left. apply (Hmap i minimize (fun w => w)) in Hin; auto.
    destruct Hin as [w [Hw [Hid [Hz|[Ht Hr]]]]]; exists w;
      repeat split; auto. subst w'. auto.
  - left. apply (Hmap i toggleMaximized (fun w => w)) in Hin; auto.
    destruct Hin as [w [Hw [Hid [Hz|[Ht Hr]]]]]; exists w;
      repeat split; auto. subst w'. auto.
  - left. apply Hmap in Hin; auto.
    destruct Hin as [w [Hw [Hid [Hz|[Ht Hr]]]]]; exists w;
      repeat split; auto. right. subst w'. auto.
  - left. apply Hmap in Hin; auto.
    destruct Hin as [w [Hw [Hid [Hz|[Ht Hr]]]]]; exists w;
      repeat split; auto. right. subst w'. auto.
  - left. apply (Hmap i (moveTo nx ny) (fun w => w)) in Hin; auto.
    destruct Hin as [w [Hw [Hid [Hz|[Ht Hr]]]]]; exists w;
      repeat split; auto. subst w'. auto.
  - left. apply (Hmap i (resizeTo nw nh) (fun w => w)) in Hin; auto.
    destruct Hin as [w [Hw [Hid [Hz|[Ht Hr]]]]]; exists w;
      repeat split; auto. subst w'. auto.
Qed.

Lemma map_cond_target i F G ws w' :
  (forall w, id (F w) = id w) -> (forall w, id (G w) = id w) ->
  In w' (map (fun w => if hasId i w then F w else G w) ws) -> id w' = i ->
  exists w, In w ws /\ id w = i /\ w' = F w.
Proof.
  intros HF HG Hin Hid. apply in_map_iff in Hin.
  destruct Hin as [w [E Hin]]. exists w.
  destruct (hasId i w) eqn:Ew; subst w'.
  - rewrite HF in Hid. auto.
  - rewrite HG in Hid. apply hasId_false in Ew. contradiction.
Qed.

Lemma map_cond_other i F G ws n w :
  nth_error ws n = Some w -> id w <> i ->
  nth_error (map (fun w => if hasId i w then F w else G w) ws) n
  = Some (G w).
Proof.
  intros Hn Hid. rewrite nth_error_map, Hn. simpl.
  apply hasId_false in Hid. rewrite Hid. reflexivity.
Qed.

Lemma step_target_zIndex s o w' :
  focusAffecting o = true ->
  In w' (windows (step s o)) -> id w' = target o ->
  zIndex w' = topZIndex s + 1.
Proof.
  destruct o as [window|i|i|i|i|i|i nx ny|i nw nh]; simpl;
    intros Hfa Hin Hid; try discriminate.
  - unfold openWindow in Hin. simpl in Hin.
    destruct (find (hasId (d_id window)) (windows s)) as [existing|] eqn:E.
    + destruct (isMinimized existing);
        apply map_cond_target in Hin; auto;
        destruct Hin as [w [_ [_ ->]]]; reflexivity.
    + apply find_hasId_None in E. apply in_app_iff in Hin.
      destruct Hin as [Hin|[Hin|[]]].
      * apply in_map_iff in Hin. destruct Hin as [w [Ew Hin]]. subst w'.
        exfalso. apply E. simpl in Hid. rewrite <- Hid. apply in_ids, Hin.
      * subst w'. reflexivity.
  - apply map_cond_target in Hin; auto.
    destruct Hin as [w [_ [_ ->]]]. reflexivity.
  - apply map_cond_target in Hin; auto.
    destruct Hin as [w [_ [_ ->]]]. reflexivity.
Qed.

Lemma step_others_kept s o n w :
  focusAffecting o = true ->
  nth_error (windows s) n = Some w -> id w <> target o ->
  nth_error (windows (step s o)) n = Some (unfocus w).
Proof.
  destruct o as [window|i|i|i|i|i|i nx ny|i nw nh]; simpl;
    intros Hfa Hn Hid; try discriminate.
  - unfold openWindow. simpl.
    destruct (find (hasId (d_id window)) (windows s)) as [existing|] eqn:E.
    + destruct (isMinimized existing); apply map_cond_other; assumption.
    + rewrite nth_error_app1.
      * rewrite nth_error_map, Hn. reflexivity.
      * rewrite length_map. apply nth_error_Some. congruence.
  - apply map_cond_other; assumption.
  - apply map_cond_other; assumption.
Qed.

Lemma zIndex_step_mono s o w w' :
  Consistent s -> In w (windows s) -> In w' (windows (step s o)) ->
  id w' = id w -> zIndex w <= zIndex w'.
Proof.
  intros C Hw Hw' Hid. pose proof (cons_top s C) as Htop.
  rewrite Forall_forall in Htop.
  apply step_origin in Hw'.
  destruct Hw' as [[w0 [Hw0 [Hid0 Hz]]]|[window [_ [Hnew ->]]]].
  - assert (w0 = w) as ->
      by (apply (unique_by_id (windows s)); try apply C; congruence).
    specialize (Htop w Hw). simpl in Htop.
    destruct Hz as [Hz|[_ [_ Hz]]]; lia.
  - exfalso. apply Hnew. simpl in Hid. rewrite Hid. apply in_ids, Hw.
Qed.

(** C4. Each focus-affecting operation ([open], [restore], [focus]) adds
    exactly 1 to [topZIndex], gives the new value to every record that
    carries the target id and leaves the other records as they were but
    for [isFocused = false], so with their [zIndex].  Hence, in any sequence
    of calls, a focus-affecting operation issues a strictly greater value
    than every focus-affecting operation before it; and from the initial
    registry no record's [zIndex] ever goes down, every issued value is
    above every [zIndex] in use, and no two records share a [zIndex]. *)
Theorem zIndex_allocation :
  (forall s o, focusAffecting o = true ->
     topZIndex (step s o) = topZIndex s + 1
     /\ (forall w', In w' (windows (step s o)) -> id w' = target o ->
                    zIndex w' = topZIndex s + 1)
     /\ (forall n w, nth_error (windows s) n = Some w -> id w <> target o ->
           nth_error (windows (step s o)) n
           = Some (mkWindowState (id w) (title w) (x w) (y w) (width w)
                     (height w) (zIndex w) (isMinimized w) (isMaximized w)
                     false (payload w))))
  /\ (forall s ops1 a ops2 b,
        focusAffecting a = true -> focusAffecting b = true ->
        topZIndex (run (ops1 ++ [a]) s)
        < topZIndex (run (ops1 ++ a :: ops2 ++ [b]) s))
  /\ (forall (ops : list (Op Payload)) o w w',
        In w (windows (run ops initialRegistry)) ->
        In w' (windows (step (run ops initialRegistry) o)) ->
        id w' = id w -> zIndex w <= zIndex w')
  /\ (forall (ops : list (Op Payload)) o w,
        focusAffecting o = true ->
        In w (windows (run ops initialRegistry)) ->
        zIndex w < topZIndex (step (run ops initialRegistry) o))
  /\ (forall ops : list (Op Payload),
        NoDup (map zIndex (windows (run ops initialRegistry)))).
Proof.
  repeat split.
  - apply topZIndex_focusAffecting. assumption.
  - intros w'. apply step_target_zIndex. assumption.
  - intros n w. apply step_others_kept. assumption.
  - intros s ops1 a ops2 b Ha Hb.
    replace (ops1 ++ a :: ops2 ++ [b]) with ((ops1 ++ [a]) ++ ops2 ++ [b])
      by (rewrite <- app_assoc; reflexivity).
    rewrite (run_app (ops1 ++ [a])), (run_app ops2).
    change (run [b] ?t) with (step t b).
    rewrite (topZIndex_focusAffecting _ b Hb).
    pose proof (topZIndex_run_mono ops2 (run (ops1 ++ [a]) s)). lia.
  - intros ops o w w'. apply zIndex_step_mono, Consistent_reachable.
  - intros ops o w Hfa Hw. rewrite (topZIndex_focusAffecting _ o Hfa).
    pose proof (cons_top _ (Consistent_reachable ops)) as Htop.
    rewrite Forall_forall in Htop. specialize (Htop w Hw). simpl in Htop.
    lia.
  - intros ops. apply cons_z, Consistent_reachable.
Qed.

(** ** What [openWindow] guarantees *)

Lemma openWindow_present window s :
  In (d_id window) (ids (windows (openWindow window s))).
Proof.
  unfold openWindow. simpl.
  destruct (find (hasId (d_id window)) (windows s)) as [existing|] eqn:E.
  - apply find_hasId_Some in E. destruct E as [Hin Hid].
    destruct (isMinimized existing); rewrite ids_map_cond by reflexivity;
      rewrite <- Hid; apply in_ids, Hin.
  - unfold ids. rewrite map_app. apply in_or_app. right. simpl. auto.
Qed.

(** Every record after [openWindow] either carries the opened id, and is
    then focused at the new top value, or is an unfocused copy of a record
    that was there before. *)
Lemma openWindow_records window s w' :
  In w' (windows (openWindow window s)) ->
  (id w' = d_id window /\ isFocused w' = true
   /\ zIndex w' = topZIndex s + 1)
  \/ (id w' <> d_id window
      /\ exists w, In w (windows s) /\ w' = unfocus w).
Proof.
  assert (Hmap : forall F,
             (forall w, id (F w) = id w) ->
             (forall w, isFocused (F w) = true) ->
             (forall w, zIndex (F w) = topZIndex s + 1) ->
             In w' (map (fun w => if hasId (d_id window) w then F w
                                  else unfocus w) (windows s)) ->
             (id w' = d_id window /\ isFocused w' = true
              /\ zIndex w' = topZIndex s + 1)
             \/ (id w' <> d_id window
                 /\ exists w, In w (windows s) /\ w' = unfocus w)).
  { intros F HF1 HF2 HF3 Hin. apply in_map_iff in Hin.
    destruct Hin as [w [E Hin]].
    destruct (hasId (d_id window) w) eqn:Ew; subst w'.
    - left. apply hasId_true in Ew. rewrite HF1, HF2, HF3. auto.
    - right. apply hasId_false in Ew. split; [exact Ew | eauto]. }
  unfold openWindow. simpl.
  destruct (find (hasId (d_id window)) (windows s)) as [existing|] eqn:E.
  - destruct (isMinimized existing); apply Hmap; reflexivity.
  - intros Hin. apply find_hasId_None in E. apply in_app_iff in Hin.
    destruct Hin as [Hin|[Hin|[]]].
    + right. apply in_map_iff in Hin. destruct Hin as [w [Ew Hin]].
      subst w'. split; [|eauto].
      simpl. intros Hid. apply E. rewrite <- Hid. apply in_ids, Hin.
    + left. subst w'. auto.
Qed.

Lemma countFocused_present w ws :
  In w ws -> isFocused w = true -> (1 <= countFocused ws)%nat.
Proof.
  intros Hin Hf. unfold countFocused.
  assert (In w (filter isFocused ws)) as H by (apply filter_In; auto).
  destruct (filter isFocused ws); [contradiction | simpl; lia].
Qed.

(** C5. After [open(descriptor)] in any registry reached from the initial
    one, exactly one record carries the descriptor's id, exactly one record
    is focused, the records with that id are focused at the new top value
    and every other record is unfocused and strictly below it.  Opening
    "a", minimizing it and opening "a" again leaves the single record "a",
    not minimized and focused.  No reachable registry holds two records with
    the same id. *)
Theorem open_guarantees :
  (forall (ops : list (Op Payload)) window,
     let s' := openWindow window (run ops initialRegistry) in
     countId (d_id window) (windows s') = 1%nat
     /\ countFocused (windows s') = 1%nat
     /\ (forall w, In w (windows s') ->
           (id w = d_id window ->
            isFocused w = true /\ zIndex w = topZIndex s')
           /\ (id w <> d_id window ->
               isFocused w = false /\ zIndex w < topZIndex s')))
  /\ (forall t1 x1 y1 wd1 ht1 min1 max1 (p1 : Payload)
             t2 x2 y2 wd2 ht2 min2 max2 p2,
        windows
          (run [Open (mkWindowDescriptor "a" t1 x1 y1 wd1 ht1 min1 max1 p1);
                Minimize "a";
                Open (mkWindowDescriptor "a" t2 x2 y2 wd2 ht2 min2 max2 p2)]
               initialRegistry)
        = [mkWindowState "a" t1 x1 y1 wd1 ht1 102 false max1 true p1])
  /\ (forall ops : list (Op Payload),
        NoDup (ids (windows (run ops initialRegistry)))).
Proof.
  split; [|split].
  - intros ops window s'.
    pose proof (Consistent_reachable ops) as C.
    pose proof (Consistent_openWindow window _ C) as C'. fold s' in C'.
    pose proof (openWindow_present window (run ops initialRegistry)) as Hp.
    fold s' in Hp.
    assert (Hrec : forall w, In w (windows s') ->
              (id w = d_id window ->
               isFocused w = true /\ zIndex w = topZIndex s')
              /\ (id w <> d_id window ->
                  isFocused w = false /\ zIndex w < topZIndex s')).
    { intros w Hw. apply openWindow_records in Hw.
      destruct Hw as [[Hid [Hf Hz]]|[Hid [w0 [Hw0 ->]]]].
      - split; [auto | contradiction].
      - split; [contradiction|]. intros _. split; [reflexivity|].
        pose proof (cons_top _ C) as Htop. rewrite Forall_forall in Htop.
        specialize (Htop w0 Hw0). simpl in *. lia. }
    split; [|split].
    + pose proof (countId_NoDup (d_id window) _ (cons_ids _ C')).
      pose proof (countId_present _ _ Hp). lia.
    + pose proof (cons_focus _ C').
      unfold ids in Hp. apply in_map_iff in Hp. destruct Hp as [w [Hid Hw]].
      destruct (Hrec w Hw) as [Hyes _]. destruct (Hyes Hid) as [Hf _].
      pose proof (countFocused_present w _ Hw Hf). lia.
    + exact Hrec.
  - intros. reflexivity.
  - intros ops. apply cons_ids, Consistent_reachable.
Qed.

(** C6. When no record carries the id, [close], [minimize], [maximize],
    [updatePosition] and [updateSize] return the registry they were given:
    the same records and the same [topZIndex]. *)
Theorem absent_id_noop s i nx ny nw nh :
  ~ In i (ids (windows s)) ->
  closeWindow i s = s
  /\ minimizeWindow i s = s
  /\ maximizeWindow i s = s
  /\ updateWindowPosition i nx ny s = s
  /\ updateWindowSize i nw nh s = s.
Proof.
  intros H. destruct s as [ws top]. simpl in H.
  unfold closeWindow, minimizeWindow, maximizeWindow, updateWindowPosition,
    updateWindowSize. simpl.
  rewrite filter_absent, !map_cond_id_absent by exact H.
  repeat split; reflexivity.
Qed.

(** ** Frame properties *)

Lemma hasId_refl w : hasId (id w) w = true.
Proof. apply hasId_true. reflexivity. Qed.

Lemma map_cond_split i F ws1 w ws2 :
  id w = i -> ~ In i (ids ws1) -> ~ In i (ids ws2) ->
  map (fun w => if hasId i w then F w else w) (ws1 ++ w :: ws2)
  = ws1 ++ F w :: ws2.
Proof.
  intros Hid H1 H2. rewrite map_app. simpl.
  rewrite !map_cond_id_absent by assumption.
  apply hasId_true in Hid. rewrite Hid. reflexivity.
Qed.

Lemma split_at_record ws w :
  NoDup (ids ws) -> In w ws ->
  exists ws1 ws2, ws = ws1 ++ w :: ws2
                  /\ ~ In (id w) (ids ws1) /\ ~ In (id w) (ids ws2).
Proof.
  intros Hnd Hin. apply in_split in Hin. destruct Hin as [ws1 [ws2 ->]].
  exists ws1, ws2. split; [reflexivity|].
  unfold ids in *. rewrite map_app in Hnd. simpl in Hnd.
  apply NoDup_remove_2 in Hnd.
  split; intros H; apply Hnd, in_or_app; auto.
Qed.

Lemma closeWindow_at s ws1 w ws2 :
  windows s = ws1 ++ w :: ws2 ->
  ~ In (id w) (ids ws1) -> ~ In (id w) (ids ws2) ->
  closeWindow (id w) s = {| windows := ws1 ++ ws2; topZIndex := topZIndex s |}.
Proof.
  intros Hs H1 H2. unfold closeWindow. rewrite Hs, filter_app. simpl.
  rewrite hasId_refl. simpl. rewrite !filter_absent by assumption.
  reflexivity.
Qed.

(** C7. In a registry with pairwise different ids that holds the record
    [w], [close] of [w]'s id returns the records before and after [w],
    untouched and in order, with the same [topZIndex]; the number of focused
    records drops by one exactly when [w] was focused, so with a single
    focus and [w] focused no record is focused afterwards. *)
Theorem close_removes_only_target s w :
  NoDup (ids (windows s)) -> In w (windows s) ->
  exists ws1 ws2,
    windows s = ws1 ++ w :: ws2
    /\ closeWindow (id w) s
       = {| windows := ws1 ++ ws2; topZIndex := topZIndex s |}
    /\ countFocused (windows s)
       = (countFocused (windows (closeWindow (id w) s))
          + (if isFocused w then 1 else 0))%nat
    /\ ((countFocused (windows s) <= 1)%nat -> isFocused w = true ->
        countFocused (windows (closeWindow (id w) s)) = 0%nat).
Proof.
  intros Hnd Hin.
  destruct (split_at_record _ w Hnd Hin) as [ws1 [ws2 [Hs [H1 H2]]]].
  exists ws1, ws2.
  pose proof (closeWindow_at s ws1 w ws2 Hs H1 H2) as Hclose.
  assert (Hcount : countFocused (windows s)
                   = (countFocused (windows (closeWindow (id w) s))
                      + (if isFocused w then 1 else 0))%nat).
  { rewrite Hclose, Hs. simpl. rewrite !countFocused_app.
    unfold countFocused at 2. simpl.
    destruct (isFocused w); simpl; fold (countFocused ws2); lia. }
  split; [exact Hs | split; [exact Hclose | split; [exact Hcount|]]].
  intros Hle Hf. rewrite Hf in Hcount. lia.
Qed.

(** C8. In a registry with pairwise different ids that holds the record
    [w], [updatePosition] on [w]'s id replaces [w] by a record that differs
    from it in [x] and [y] only, and [updateSize] by one that differs in
    [width] and [height] only; the other records and [topZIndex] are the
    same. *)
Theorem update_geometry_only s w nx ny nw nh :
  NoDup (ids (windows s)) -> In w (windows s) ->
  exists ws1 ws2,
    windows s = ws1 ++ w :: ws2
    /\ updateWindowPosition (id w) nx ny s
       = {| windows :=
              ws1 ++ mkWindowState (id w) (title w) nx ny (width w) (height w)
                       (zIndex w) (isMinimized w) (isMaximized w)
                       (isFocused w) (payload w) :: ws2;
            topZIndex := topZIndex s |}
    /\ updateWindowSize (id w) nw nh s
       = {| windows :=
              ws1 ++ mkWindowState (id w) (title w) (x w) (y w) nw nh
                       (zIndex w) (isMinimized w) (isMaximized w)
                       (isFocused w) (payload w) :: ws2;
            topZIndex := topZIndex s |}.
Proof.
  intros Hnd Hin.
  destruct (split_at_record _ w Hnd Hin) as [ws1 [ws2 [Hs [H1 H2]]]].
  exists ws1, ws2. split; [exact Hs|].
  unfold updateWindowPosition, updateWindowSize.
  rewrite Hs, !map_cond_split by auto. split; reflexivity.
Qed.

(** ** The accessor outside a provider *)

(** C9. With no [WindowManagerProvider] around the caller,
    [useWindowManager] throws; it returns no controller.  Inside a provider
    it returns that provider's registry. *)
Theorem useWindowManager_outside_provider :
  @useWindowManager Payload []
  = inl (mkError "useWindowManager must be used within WindowManagerProvider")
  /\ (forall s providers,
        useWindowManager (WindowManagerProvider s providers) = inr s).
Proof. split; reflexivity. Qed.

(** ** Re-opening an id *)

(** C10. When the registry holds a record with the descriptor's id,
    [openWindow] reads nothing of the descriptor but the id: any descriptor
    with that id gives the same registry; no record is added, and every
    record keeps its id, title, position, size, [isMaximized] and payload. *)
Theorem open_existing_ignores_descriptor s window :
  In (d_id window) (ids (windows s)) ->
  (forall window', d_id window' = d_id window ->
                   openWindow window' s = openWindow window s)
  /\ List.length (windows (openWindow window s)) = List.length (windows s)
  /\ (forall n w, nth_error (windows s) n = Some w ->
        exists w', nth_error (windows (openWindow window s)) n = Some w'
                   /\ id w' = id w /\ title w' = title w
                   /\ x w' = x w /\ y w' = y w
                   /\ width w' = width w /\ height w' = height w
                   /\ isMaximized w' = isMaximized w
                   /\ payload w' = payload w).
Proof.
  intros Hin. split; [|split].
  - intros window' E. unfold openWindow. rewrite E.
    destruct (find (hasId (d_id window)) (windows s)) as [existing|] eqn:Ef.
    + reflexivity.
    + apply find_hasId_None in Ef. contradiction.
  - unfold openWindow. simpl.
    destruct (find (hasId (d_id window)) (windows s)) as [existing|] eqn:Ef.
    + destruct (isMinimized existing); apply length_map.
    + apply find_hasId_None in Ef. contradiction.
  - intros n w Hn. unfold openWindow. simpl.
    destruct (find (hasId (d_id window)) (windows s)) as [existing|] eqn:Ef.
    + destruct (isMinimized existing); rewrite nth_error_map, Hn; simpl;
        destruct (hasId (d_id window) w); eexists; split;
        try reflexivity; simpl; repeat split; reflexivity.
    + apply find_hasId_None in Ef. contradiction.
Qed.

(** ** How far the counter can get *)

(** The counter grows by the number of focus-affecting calls made, so from
    the initial registry it is 100 plus that number; the additions of the
    source are exact in JavaScript numbers as long as this stays below
    2^53. *)
Lemma topZIndex_run (ops : list (Op Payload)) s :
  topZIndex (run ops s)
  = topZIndex s + Z.of_nat (List.length (filter focusAffecting ops)).
Proof.
  revert s. unfold run. induction ops as [|o ops IH]; intros s.
  - simpl. lia.
  - cbn [fold_left filter]. rewrite IH.
    destruct (focusAffecting o) eqn:E.
    + rewrite (topZIndex_focusAffecting s o E). cbn [List.length]. lia.
    + destruct o; simpl in E; try discriminate; simpl; lia.
Qed.

End Properties.

(** ** Checks on the sample data *)



(** With "a" open and focused, [focus("b")] and [restore("b")] on the
    unknown id "b" take the focus from "a" and move the counter from 101
    to 102. *)
Lemma restore_focus_absent_changes_registry :
  ~ In "b" (ids (windows onlyA))
  /\ map isFocused (windows onlyA) = [true]
  /\ topZIndex onlyA = 101
  /\ map isFocused (windows (focusWindow "b" onlyA)) = [false]
  /\ topZIndex (focusWindow "b" onlyA) = 102
  /\ map isFocused (windows (restoreWindow "b" onlyA)) = [false]
  /\ topZIndex (restoreWindow "b" onlyA) = 102
  /\ focusWindow "b" onlyA <> onlyA
  /\ restoreWindow "b" onlyA <> onlyA.
Proof.
  repeat split; try reflexivity; vm_compute; try discriminate.
  intros [H|[]]. discriminate.
Qed.

Lemma restore_focus_absent_witness :
  restoreWindow "b" onlyA
  = {| windows := [mkWindowState "a" "Notes" 0 0 400 300 101 false false
                     false tt];
       topZIndex := 102 |}
  /\ focusWindow "b" onlyA
     = {| windows := [mkWindowState "a" "Notes" 0 0 400 300 101 false false
                        false tt];
          topZIndex := 102 |}.
Proof.
  apply (restore_focus_absent onlyA "b").
  vm_compute. intros [H|[]]. discriminate.
Defined.

(** The scenarios of the specification. *)
Example scenario_focus_a :
  run [Open windowA; Open windowB; Focus "a"] initialRegistry
  = {| windows := [mkWindowState "a" "Notes" 0 0 400 300 103 false false
                     true tt;
                   mkWindowState "b" "Chat" 40 40 500 350 102 false false
                     false tt];
       topZIndex := 103 |}.
Proof. reflexivity. Qed.

Example scenario_minimize_a :
  run [Open windowA; Open windowB; Minimize "a"] initialRegistry
  = {| windows := [mkWindowState "a" "Notes" 0 0 400 300 101 true false
                     false tt;
                   mkWindowState "b" "Chat" 40 40 500 350 102 false false
                     true tt];
       topZIndex := 102 |}.
Proof. reflexivity. Qed.

(** [focus("a")] over "b": the counter goes from 102 to 103, "b" keeps 102,
    and the value is above the one [open] of "b" had issued. *)
Lemma zIndex_allocation_witness :
  topZIndex (step bOverA (Focus "a")) = 103
  /\ nth_error (windows (step bOverA (Focus "a"))) 1
     = Some (mkWindowState "b" "Chat" 40 40 500 350 102 false false false tt)
  /\ topZIndex (run ([Open windowA] ++ [Open windowB]) initialRegistry)
     < topZIndex (run ([Open windowA] ++ Open windowB :: [Minimize "b"]
                         ++ [Focus "a"]) initialRegistry).
Proof.
  destruct (@zIndex_allocation unit) as [Hstep [Hseq _]].
  destruct (Hstep bOverA (Focus "a") eq_refl) as [Htop [_ Hothers]].
  split; [exact Htop | split].
  - apply (Hothers 1%nat
             (mkWindowState "b" "Chat" 40 40 500 350 102 false false true tt)).
    + reflexivity.
    + discriminate.
  - apply (Hseq initialRegistry [Open windowA] (Open windowB) [Minimize "b"]
             (Focus "a")); reflexivity.
Defined.

(** Opening "a" again after it was minimized. *)
Lemma open_guarantees_witness :
  countId "a" (windows (openWindow windowA
                          (run [Open windowA; Open windowB; Minimize "a"]
                               initialRegistry))) = 1%nat
  /\ countFocused (windows (openWindow windowA
                              (run [Open windowA; Open windowB; Minimize "a"]
                                   initialRegistry))) = 1%nat.
Proof.
  destruct (@open_guarantees unit) as [Hopen _].
  destruct (Hopen [Open windowA; Open windowB; Minimize "a"] windowA)
    as [Hid [Hfocus _]].
  split; [exact Hid | exact Hfocus].
Defined.

Lemma absent_id_noop_witness :
  closeWindow "b" onlyA = onlyA
  /\ minimizeWindow "b" onlyA = onlyA
  /\ maximizeWindow "b" onlyA = onlyA
  /\ updateWindowPosition "b" 50 80 onlyA = onlyA
  /\ updateWindowSize "b" 640 480 onlyA = onlyA.
Proof.
  apply (absent_id_noop onlyA "b" 50 80 640 480).
  vm_compute. intros [H|[]]. discriminate.
Defined.

(** Closing the focused "b" leaves no window focused. *)
Lemma close_removes_only_target_witness :
  countFocused (windows (closeWindow "b" bOverA)) = 0%nat.
Proof.
  destruct (close_removes_only_target bOverA
              (mkWindowState "b" "Chat" 40 40 500 350 102 false false true tt))
    as [ws1 [ws2 [_ [_ [_ Hnone]]]]].
  - vm_compute. repeat constructor; simpl; intuition discriminate.
  - vm_compute. right. left. reflexivity.
  - apply Hnone.
    + vm_compute. apply le_n.
    + reflexivity.
Defined.

(** [updatePosition("a", 50, 80)] and [updateSize("a", 640, 480)] on "a" at
    (0,0), 400 by 300. *)
Lemma update_geometry_only_witness :
  exists ws1 ws2,
    windows onlyA
    = ws1 ++ mkWindowState "a" "Notes" 0 0 400 300 101 false false true tt
         :: ws2
    /\ updateWindowPosition "a" 50 80 onlyA
       = {| windows :=
              ws1 ++ mkWindowState "a" "Notes" 50 80 400 300 101 false false
                       true tt :: ws2;
            topZIndex := 101 |}
    /\ updateWindowSize "a" 640 480 onlyA
       = {| windows :=
              ws1 ++ mkWindowState "a" "Notes" 0 0 640 480 101 false false
                       true tt :: ws2;
            topZIndex := 101 |}.
Proof.
  apply (update_geometry_only onlyA
           (mkWindowState "a" "Notes" 0 0 400 300 101 false false true tt)
           50 80 640 480).
  - vm_compute. repeat constructor; simpl; intuition.
  - vm_compute. left. reflexivity.
Defined.

(** Opening "a" over "b" with another title, place, size and state. *)
Lemma open_existing_ignores_descriptor_witness :
  openWindow (mkWindowDescriptor "a" "Renamed" 7 7 70 70 true true tt) bOverA
  = openWindow windowA bOverA.
Proof.
  destruct (open_existing_ignores_descriptor bOverA windowA) as [Hsame _].
  - vm_compute. left. reflexivity.
  - apply Hsame. reflexivity.
Defined.

(** * Further properties of the registry *)

Section RegistryLaws.

Context {Payload : Type}.

Implicit Types (w : WindowState Payload) (ws : list (WindowState Payload)).
Implicit Types (s : Registry Payload) (i : string) (o : Op Payload).

(** ** The focused window is the topmost one *)

Lemma focused_at_top_step s o :
  (forall w, In w (windows s) -> isFocused w = true ->
             zIndex w = topZIndex s) ->
  forall w', In w' (windows (step s o)) -> isFocused w' = true ->
             zIndex w' = topZIndex (step s o).
Proof.
  intros Hs w' Hin Hf.
  destruct o as [window|i|i|i|i|i|i nx ny|i nw nh]; simpl in *.
  - apply openWindow_records in Hin.
    destruct Hin as [[_ [_ Hz]]|[_ [w [_ ->]]]]; [exact Hz | discriminate].
  - apply filter_In in Hin. apply Hs; tauto.
  - apply in_map_iff in Hin. destruct Hin as [w [E Hin]].
    destruct (hasId i w); subst w'; [discriminate | auto].
  - apply in_map_iff in Hin. destruct Hin as [w [E Hin]].
    destruct (hasId i w); subst w'; [apply (Hs w Hin Hf) | auto].
  - apply in_map_iff in Hin. destruct Hin as [w [E Hin]].
    destruct (hasId i w); subst w'; [reflexivity | discriminate].
  - apply in_map_iff in Hin. destruct Hin as [w [E Hin]].
    destruct (hasId i w); subst w'; [reflexivity | discriminate].
  - apply in_map_iff in Hin. destruct Hin as [w [E Hin]].
    destruct (hasId i w); subst w'; [apply (Hs w Hin Hf) | auto].
  - apply in_map_iff in Hin. destruct Hin as [w [E Hin]].
    destruct (hasId i w); subst w'; [apply (Hs w Hin Hf) | auto].
Qed.

Lemma focused_at_top_run ops s :
  (forall w, In w (windows s) -> isFocused w = true ->
             zIndex w = topZIndex s) ->
  forall w', In w' (windows (run ops s)) -> isFocused w' = true ->
             zIndex w' = topZIndex (run ops s).
Proof.
  revert s. unfold run. induction ops as [|o ops IH]; simpl; intros s Hs.
  - exact Hs.
  - apply IH. apply focused_at_top_step, Hs.
Qed.

Lemma same_zIndex_same_record ws w1 w2 :
  NoDup (map zIndex ws) -> In w1 ws -> In w2 ws ->
  zIndex w1 = zIndex w2 -> w1 = w2.
Proof.
  induction ws as [|a ws IH]; simpl; intros Hnd H1 H2 E.
  - contradiction.
  - inversion Hnd as [|? ? Hfresh Hnd']; subst.
    destruct H1 as [H1|H1], H2 as [H2|H2]; subst.
    + reflexivity.
    + exfalso. apply Hfresh. rewrite E. apply in_map, H2.
    + exfalso. apply Hfresh. rewrite <- E. apply in_map, H1.
    + apply IH; assumption.
Qed.

(** X1. In every registry reached from the initial one, a focused record
    carries the current value of the counter as its [zIndex], and every
    other record lies strictly below it. *)
Theorem focused_record_on_top (ops : list (Op Payload)) w :
  In w (windows (run ops initialRegistry)) -> isFocused w = true ->
  zIndex w = topZIndex (run ops initialRegistry)
  /\ (forall w', In w' (windows (run ops initialRegistry)) -> w' <> w ->
                 zIndex w' < zIndex w).
Proof.
  intros Hin Hf.
  assert (Hz : zIndex w = topZIndex (run ops initialRegistry)).
  { apply (focused_at_top_run ops initialRegistry); auto.
    simpl. contradiction. }
  split; [exact Hz|]. intros w' Hin' Hne.
  pose proof (Consistent_reachable ops) as C.
  pose proof (cons_top _ C) as Htop. rewrite Forall_forall in Htop.
  specialize (Htop w' Hin'). simpl in Htop.
  assert (zIndex w' <> zIndex w).
  { intros E. apply Hne.
    apply (same_zIndex_same_record _ w' w (cons_z _ C)); assumption. }
  lia.
Qed.

(** ** Range of the stacking values *)

Lemma above_base_step s o :
  100 <= topZIndex s ->
  (forall w, In w (windows s) -> 100 < zIndex w) ->
  forall w', In w' (windows (step s o)) -> 100 < zIndex w'.
Proof.
  intros Htop Hs w' Hin. apply step_origin in Hin.
  destruct Hin as [[w [Hw [_ [Hz|[_ [_ Hz]]]]]]|[window [_ [_ ->]]]].
  - rewrite Hz. apply Hs, Hw.
  - lia.
  - simpl. lia.
Qed.

Lemma above_base_run ops s :
  100 <= topZIndex s ->
  (forall w, In w (windows s) -> 100 < zIndex w) ->
  forall w', In w' (windows (run ops s)) -> 100 < zIndex w'.
Proof.
  revert s. unfold run. induction ops as [|o ops IH]; simpl; intros s Ht Hs.
  - exact Hs.
  - apply IH.
    + pose proof (topZIndex_step_mono s o). lia.
    + apply above_base_step; assumption.
Qed.

(** X2. From the initial registry the counter is 100 plus the number of
    [open], [restore] and [focus] calls made so far, whatever their
    arguments, and every record's [zIndex] lies between 101 and the
    counter. *)
Theorem zIndex_range (ops : list (Op Payload)) :
  topZIndex (run ops initialRegistry)
  = 100 + Z.of_nat (List.length (filter focusAffecting ops))
  /\ (forall w, In w (windows (run ops initialRegistry)) ->
                101 <= zIndex w <= topZIndex (run ops initialRegistry)).
Proof.
  split.
  - apply topZIndex_run.
  - intros w Hin.
    pose proof (cons_top _ (Consistent_reachable ops)) as Htop.
    rewrite Forall_forall in Htop. specialize (Htop w Hin). simpl in Htop.
    assert (100 < zIndex w).
    { apply (above_base_run ops initialRegistry); simpl; auto.
      - lia.
      - contradiction. }
    lia.
Qed.

(** ** Which windows exist *)

Lemma existsb_find (p : WindowState Payload -> bool) ws :
  existsb p ws = match find p ws with Some _ => true | None => false end.
Proof.
  induction ws as [|w ws IH]; simpl; [reflexivity|].
  destruct (p w); [reflexivity | exact IH].
Qed.

Lemma ids_filter i ws :
  ids (filter (fun w => negb (hasId i w)) ws)
  = filter (fun j => negb (String.eqb j i)) (ids ws).
Proof.
  induction ws as [|w ws IH]; simpl; [reflexivity|].
  unfold hasId at 1. destruct (String.eqb (id w) i); simpl; congruence.
Qed.

(** X3. Only [open] and [close] change which ids the registry holds and in
    which order: [open] appends the descriptor's id when it is new and adds
    nothing otherwise, [close] drops the id, and the six other callbacks
    leave the list of ids as it is. *)
Theorem ids_after_step s o :
  ids (windows (step s o))
  = match o with
    | Open window =>
        if existsb (hasId (d_id window)) (windows s)
        then ids (windows s)
        else ids (windows s) ++ [d_id window]
    | Close i => filter (fun j => negb (String.eqb j i)) (ids (windows s))
    | _ => ids (windows s)
    end.
Proof.
  destruct o as [window|i|i|i|i|i|i nx ny|i nw nh]; simpl.
  - rewrite existsb_find. unfold openWindow. simpl.
    destruct (find (hasId (d_id window)) (windows s)) as [existing|].
    + destruct (isMinimized existing); apply ids_map_cond; reflexivity.
    + unfold ids. rewrite map_app, map_map. reflexivity.
  - apply ids_filter.
  - apply (ids_map_cond i minimize (fun w => w)); reflexivity.
  - apply (ids_map_cond i toggleMaximized (fun w => w)); reflexivity.
  - apply ids_map_cond; reflexivity.
  - apply ids_map_cond; reflexivity.
  - apply (ids_map_cond i (moveTo nx ny) (fun w => w)); reflexivity.
  - apply (ids_map_cond i (resizeTo nw nh) (fun w => w)); reflexivity.
Qed.

Lemma closed_id_gone i ws :
  ~ In i (ids (filter (fun w => negb (hasId i w)) ws)).
Proof.
  intros Hin. unfold ids in Hin. apply in_map_iff in Hin.
  destruct Hin as [w [Hid Hin]]. apply filter_In in Hin.
  destruct Hin as [_ Hne]. apply negb_true_iff, hasId_false in Hne.
  contradiction.
Qed.

(** X4. After [close(id)] no record carries the id, in any registry, also
    one that held the id several times; closing the same id again changes
    nothing. *)
Theorem close_postcondition s i :
  ~ In i (ids (windows (closeWindow i s)))
  /\ closeWindow i (closeWindow i s) = closeWindow i s.
Proof.
  split.
  - apply closed_id_gone.
  - unfold closeWindow. simpl.
    rewrite (filter_absent i _ (closed_id_gone i (windows s))). reflexivity.
Qed.

(** X5. Closing an id and opening it again builds the record anew from the
    descriptor: title, position, size, minimized and maximized state and
    payload are the descriptor's, nothing of the closed record survives; the
    record goes to the end of the list, focused at the next stacking
    value. *)
Theorem reopen_after_close s window :
  openWindow window (closeWindow (d_id window) s)
  = {| windows :=
         map unfocus
             (filter (fun w => negb (hasId (d_id window) w)) (windows s))
         ++ [mkWindowState (d_id window) (d_title window) (d_x window)
               (d_y window) (d_width window) (d_height window)
               (topZIndex s + 1) (d_isMinimized window)
               (d_isMaximized window) true (d_payload window)];
       topZIndex := topZIndex s + 1 |}.
Proof.
  unfold openWindow, closeWindow. simpl.
  pose proof (closed_id_gone (d_id window) (windows s)) as H.
  apply find_hasId_None in H. rewrite H. reflexivity.
Qed.

(** ** Laws of the single callbacks *)

Lemma map_twice (F G : WindowState Payload -> WindowState Payload) ws :
  (forall w, F (F w) = G w) ->
  map F (map F ws) = map G ws.
Proof.
  intros H. rewrite map_map. apply map_ext. exact H.
Qed.

(** X6. [maximize] is its own inverse: toggling the same id twice gives the
    registry back, whatever it holds. *)
Theorem maximize_twice s i :
  maximizeWindow i (maximizeWindow i s) = s.
Proof.
  destruct s as [ws top]. unfold maximizeWindow. simpl. f_equal.
  rewrite (map_twice _ (fun w => w)); [apply map_id|].
  intros w. destruct (hasId i w) eqn:E; [|rewrite E; reflexivity].
  assert (hasId i (toggleMaximized w) = true) as -> by exact E.
  destruct w as [? ? ? ? ? ? ? ? mx ? ?]. unfold toggleMaximized. simpl.
  rewrite negb_involutive. reflexivity.
Qed.

(** X7. [minimize] is idempotent, and [restore] undoes it up to stacking:
    restoring an id right after minimizing it gives the registry that
    restoring it directly gives. *)
Theorem minimize_restore_laws s i :
  minimizeWindow i (minimizeWindow i s) = minimizeWindow i s
  /\ restoreWindow i (minimizeWindow i s) = restoreWindow i s.
Proof.
  unfold minimizeWindow, restoreWindow. simpl. split; f_equal.
  - rewrite map_map. apply map_ext. intros w.
    destruct (hasId i w) eqn:E; [|rewrite E; reflexivity].
    assert (hasId i (minimize w) = true) as -> by exact E. reflexivity.
  - rewrite map_map. apply map_ext. intros w.
    destruct (hasId i w) eqn:E; [|rewrite E; reflexivity].
    assert (hasId i (minimize w) = true) as -> by exact E. reflexivity.
Qed.

(** X8. In a registry with pairwise different ids, [open] with an id that is
    present is [restore] of that id; when the record is not minimized it is
    also [focus] of that id. *)
Theorem open_existing_is_restore s window :
  NoDup (ids (windows s)) -> In (d_id window) (ids (windows s)) ->
  openWindow window s = restoreWindow (d_id window) s
  /\ ((forall w, In w (windows s) -> id w = d_id window ->
                 isMinimized w = false) ->
      openWindow window s = focusWindow (d_id window) s).
Proof.
  intros Hnd Hin. unfold openWindow, restoreWindow, focusWindow. simpl.
  destruct (find (hasId (d_id window)) (windows s)) as [existing|] eqn:E;
    [|apply find_hasId_None in E; contradiction].
  apply find_hasId_Some in E. destruct E as [He Hid].
  destruct (isMinimized existing) eqn:Hmin.
  - split; [reflexivity|]. intros Hvis.
    rewrite (Hvis existing He Hid) in Hmin. discriminate.
  - split; [|reflexivity]. f_equal. apply map_ext_in. intros w Hw.
    destruct (hasId (d_id window) w) eqn:Ew; [|reflexivity].
    apply hasId_true in Ew.
    assert (w = existing) as ->
      by (apply (unique_by_id (windows s)); congruence).
    unfold raise, unminimizeAndRaise. rewrite Hmin. reflexivity.
Qed.

(** X9. Of two [updatePosition] calls on the same id the later one wins,
    and [updatePosition] and [updateSize] commute, on the same id or on
    different ones. *)
Theorem geometry_updates_compose s i j nx1 ny1 nx2 ny2 nw nh :
  updateWindowPosition i nx2 ny2 (updateWindowPosition i nx1 ny1 s)
  = updateWindowPosition i nx2 ny2 s
  /\ updateWindowSize j nw nh (updateWindowPosition i nx1 ny1 s)
     = updateWindowPosition i nx1 ny1 (updateWindowSize j nw nh s).
Proof.
  unfold updateWindowPosition, updateWindowSize. simpl. split; f_equal.
  - rewrite map_map. apply map_ext. intros w.
    destruct (hasId i w) eqn:E; [|rewrite E; reflexivity].
    assert (hasId i (moveTo nx1 ny1 w) = true) as -> by exact E. reflexivity.
  - rewrite !map_map. apply map_ext. intros w. unfold hasId.
    destruct (String.eqb (id w) i) eqn:Ei;
      destruct (String.eqb (id w) j) eqn:Ej;
      simpl; rewrite ?Ei, ?Ej; reflexivity.
Qed.

(** ** Bringing a window that exists to the front *)

Lemma brought_records i F s w' :
  (forall w, id (F w) = id w) -> (forall w, isFocused (F w) = true) ->
  (forall w, zIndex (F w) = topZIndex s + 1) ->
  Consistent s ->
  In w' (map (fun w => if hasId i w then F w else unfocus w) (windows s)) ->
  (id w' = i -> isFocused w' = true /\ zIndex w' = topZIndex s + 1)
  /\ (id w' <> i -> isFocused w' = false /\ zIndex w' <= topZIndex s).
Proof.
  intros Hid Hf Hz C Hin. apply in_map_iff in Hin.
  destruct Hin as [w [E Hin]].
  pose proof (cons_top _ C) as Htop. rewrite Forall_forall in Htop.
  specialize (Htop w Hin). simpl in Htop.
  destruct (hasId i w) eqn:Ew; subst w'.
  - apply hasId_true in Ew. rewrite Hid, Hf, Hz. split; [auto|].
    intros Hne. contradiction.
  - apply hasId_false in Ew. simpl. split; [contradiction | auto].
Qed.

(** X10. In a registry reached from the initial one that holds the id,
    [focus] and [restore] leave exactly one focused record, the one with
    that id, at the new value of the counter; all other records are
    unfocused and below it.  After [restore] that record is not
    minimized. *)
Theorem bring_to_front_present (ops : list (Op Payload)) i :
  In i (ids (windows (run ops initialRegistry))) ->
  let s := run ops initialRegistry in
  (countFocused (windows (focusWindow i s)) = 1%nat
   /\ forall w, In w (windows (focusWindow i s)) ->
        (id w = i -> isFocused w = true
                     /\ zIndex w = topZIndex (focusWindow i s))
        /\ (id w <> i -> isFocused w = false
                         /\ zIndex w < topZIndex (focusWindow i s)))
  /\ (countFocused (windows (restoreWindow i s)) = 1%nat
      /\ forall w, In w (windows (restoreWindow i s)) ->
           (id w = i -> isFocused w = true /\ isMinimized w = false
                        /\ zIndex w = topZIndex (restoreWindow i s))
           /\ (id w <> i -> isFocused w = false
                            /\ zIndex w < topZIndex (restoreWindow i s))).
Proof.
  intros Hin s0. subst s0. remember (run ops initialRegistry) as s eqn:Es.
  assert (C : Consistent s) by (subst s; apply Consistent_reachable).
  clear Es.
  assert (Hone : countId i (windows s) = 1%nat).
  { pose proof (countId_NoDup i _ (cons_ids _ C)).
    pose proof (countId_present _ _ Hin). lia. }
  split; split.
  - unfold focusWindow. simpl. rewrite countFocused_map_cond; auto.
  - intros w Hw. unfold focusWindow in *. simpl in *.
    apply (brought_records i (raise (topZIndex s + 1))) in Hw; auto.
    destruct Hw as [Hyes Hno]. split; [exact Hyes|].
    intros Hne. destruct (Hno Hne). split; [assumption | lia].
  - unfold restoreWindow. simpl. rewrite countFocused_map_cond; auto.
  - intros w Hw. unfold restoreWindow in *. simpl in *.
    pose proof Hw as Hw0.
    apply (brought_records i (unminimizeAndRaise (topZIndex s + 1))) in Hw;
      auto.
    destruct Hw as [Hyes Hno]. split.
    + intros Hi. destruct (Hyes Hi) as [Hf Hz].
      split; [exact Hf | split; [|exact Hz]].
      apply map_cond_target in Hw0; auto.
      destruct Hw0 as [w0 [_ [_ ->]]]. reflexivity.
    + intros Hne. destruct (Hno Hne). split; [assumption | lia].
Qed.

(** X11. In a registry with pairwise different ids, [minimize] of a
    record's id replaces that record by one that differs from it in
    [isMinimized] (now true) and [isFocused] (now false) only; the other
    records and the counter are untouched, so with a single focus on that
    record no record is focused afterwards. *)
Theorem minimize_only_target s w :
  NoDup (ids (windows s)) -> In w (windows s) ->
  exists ws1 ws2,
    windows s = ws1 ++ w :: ws2
    /\ minimizeWindow (id w) s
       = {| windows :=
              ws1 ++ mkWindowState (id w) (title w) (x w) (y w) (width w)
                       (height w) (zIndex w) true (isMaximized w) false
                       (payload w) :: ws2;
            topZIndex := topZIndex s |}
    /\ ((countFocused (windows s) <= 1)%nat -> isFocused w = true ->
        countFocused (windows (minimizeWindow (id w) s)) = 0%nat).
Proof.
  intros Hnd Hin.
  destruct (split_at_record _ w Hnd Hin) as [ws1 [ws2 [Hs [H1 H2]]]].
  exists ws1, ws2.
  assert (Hmin : minimizeWindow (id w) s
                 = {| windows := ws1 ++ minimize w :: ws2;
                      topZIndex := topZIndex s |}).
  { unfold minimizeWindow. rewrite Hs, map_cond_split by auto. reflexivity. }
  split; [exact Hs | split; [exact Hmin|]].
  intros Hle Hf. rewrite Hmin. rewrite Hs in Hle. simpl.
  rewrite countFocused_app in *. unfold countFocused at 2 in Hle.
  unfold countFocused at 2. simpl in *. rewrite Hf in Hle. simpl in Hle.
  fold (countFocused ws2) in *. lia.
Qed.

End RegistryLaws.

(** * Properties of the desktop icon *)

Lemma icon_settled_step b r e :
  Icon.settled r -> Icon.settled (fst (Icon.step b r e)).
Proof.
  intros [[Hc Ha]|[Hc [h [Ht Ha]]]]; destruct e; simpl;
    unfold Icon.handleClick; rewrite ?Hc, ?Ha, ?Ht; simpl.
  - right. split; [reflexivity|].
    exists (Icon.nextHandle r). split; reflexivity.
  - left. rewrite Hc, Ha. auto.
  - left. destruct (Nat.eq_dec h h); [auto | contradiction].
  - left. auto.
Qed.

Lemma icon_run_cons b e es r :
  Icon.run b (e :: es) r
  = (fst (Icon.run b es (fst (Icon.step b r e))),
     snd (Icon.step b r e) ++ snd (Icon.run b es (fst (Icon.step b r e)))).
Proof.
  simpl. destruct (Icon.step b r e) as [r1 c1]. simpl.
  destruct (Icon.run b es r1) as [r2 c2]. reflexivity.
Qed.

Lemma icon_settled_run b es r :
  Icon.settled r -> Icon.settled (fst (Icon.run b es r)).
Proof.
  revert r. induction es as [|e es IH]; intros r H.
  - exact H.
  - rewrite icon_run_cons. simpl. apply IH, icon_settled_step, H.
Qed.

(** X12. Whatever clicks and timeouts have happened, the icon is afterwards
    either idle, with click count 0 and no timer armed, or waiting for a
    second click, with click count 1 and exactly the timer held in
    [clickTimeoutRef] armed.  The count never reaches 2 between events and
    two timers are never armed at once. *)
Theorem icon_settled (hasOnSelect : bool) (es : list Icon.Event) :
  Icon.settled (fst (Icon.run hasOnSelect es Icon.initialRefs)).
Proof.
  apply icon_settled_run. left. split; reflexivity.
Qed.

(** X13. From an idle icon, a click followed by the timeout selects the icon
    once and opens nothing; two clicks select it once and open it once, in
    that order, and the timeout that follows finds no timer and calls
    nothing.  Either way the icon is idle again. *)
Theorem icon_gestures (hasOnSelect : bool) (r : Icon.Refs) :
  Icon.clickCount r = 0 -> Icon.armed r = [] ->
  (snd (Icon.run hasOnSelect [Icon.click; Icon.timeout] r)
   = Icon.callOnSelect hasOnSelect
   /\ Icon.clickCount
        (fst (Icon.run hasOnSelect [Icon.click; Icon.timeout] r)) = 0
   /\ Icon.armed (fst (Icon.run hasOnSelect [Icon.click; Icon.timeout] r))
      = [])
  /\ (snd (Icon.run hasOnSelect [Icon.click; Icon.click; Icon.timeout] r)
      = Icon.callOnSelect hasOnSelect ++ [Icon.onDoubleClick]
      /\ Icon.clickCount
           (fst (Icon.run hasOnSelect
                   [Icon.click; Icon.click; Icon.timeout] r)) = 0
      /\ Icon.armed
           (fst (Icon.run hasOnSelect
                   [Icon.click; Icon.click; Icon.timeout] r)) = []).
Proof.
  intros Hc Ha. destruct r as [c t a n]. simpl in Hc, Ha. subst c a.
  split.
  - simpl. rewrite app_nil_r. auto.
  - simpl. destruct (Nat.eq_dec n n); [|contradiction].
    simpl. rewrite !app_nil_r. auto.
Qed.

Lemma icon_account_step r e :
  Icon.settled r ->
  (if Icon.isClick e then 1 else 0) + Icon.clickCount r
  = Z.of_nat (List.length (filter (Icon.isCall Icon.onDoubleClick)
                             (snd (Icon.step true r e))))
    + Z.of_nat (List.length (filter (Icon.isCall Icon.onSelect)
                               (snd (Icon.step true r e))))
    + Icon.clickCount (fst (Icon.step true r e)).
Proof.
  intros [[Hc Ha]|[Hc [h [Ht Ha]]]]; destruct e; simpl;
    unfold Icon.handleClick; rewrite ?Hc, ?Ha, ?Ht; simpl;
    rewrite ?Hc; reflexivity.
Qed.

Lemma icon_account_run es r :
  Icon.settled r ->
  Z.of_nat (List.length (filter Icon.isClick es)) + Icon.clickCount r
  = Z.of_nat (List.length (filter (Icon.isCall Icon.onDoubleClick)
                             (snd (Icon.run true es r))))
    + Z.of_nat (List.length (filter (Icon.isCall Icon.onSelect)
                               (snd (Icon.run true es r))))
    + Icon.clickCount (fst (Icon.run true es r)).
Proof.
  revert r. induction es as [|e es IH]; intros r H.
  - simpl. lia.
  - rewrite icon_run_cons. cbn [fst snd].
    rewrite !filter_app, !length_app.
    pose proof (icon_account_step r e H) as Hstep.
    pose proof (IH _ (icon_settled_step true r e H)) as Hrest.
    cbn [filter]. destruct (Icon.isClick e); cbn [List.length] in *; lia.
Qed.

(** X14. Every click is accounted for.  With an [onSelect] handler, after
    any sequence of clicks and timeouts the number of clicks equals the
    number of [onDoubleClick] calls plus the number of [onSelect] calls
    plus the pending click count: a click is half of a double click (which
    calls both handlers), or was answered by the timeout with a select, or
    is still waiting. *)
Theorem icon_clicks_accounted (es : list Icon.Event) :
  Z.of_nat (List.length (filter Icon.isClick es))
  = Z.of_nat (List.length (filter (Icon.isCall Icon.onDoubleClick)
                             (snd (Icon.run true es Icon.initialRefs))))
    + Z.of_nat (List.length (filter (Icon.isCall Icon.onSelect)
                               (snd (Icon.run true es Icon.initialRefs))))
    + Icon.clickCount (fst (Icon.run true es Icon.initialRefs)).
Proof.
  assert (Icon.settled Icon.initialRefs) as H by (left; split; reflexivity).
  pose proof (icon_account_run es Icon.initialRefs H) as Hrun.
  simpl in Hrun. lia.
Qed.

Lemma icon_two_clicks b r es :
  Icon.clickCount r = 0 -> Icon.armed r = [] ->
  exists r',
    Icon.clickCount r' = 0 /\ Icon.armed r' = []
    /\ Icon.run b (Icon.click :: Icon.click :: es) r
       = (fst (Icon.run b es r'),
          (Icon.callOnSelect b ++ [Icon.onDoubleClick])
            ++ snd (Icon.run b es r')).
Proof.
  intros Hc Ha. destruct r as [c t a n]. simpl in Hc, Ha. subst c a.
  exists (Icon.mkRefs 0 (Some n) [] (S n)).
  split; [reflexivity | split; [reflexivity|]].
  simpl. destruct (Nat.eq_dec n n); [|contradiction].
  destruct (Icon.run b es (Icon.mkRefs 0 (Some n) [] (S n))). reflexivity.
Qed.

(** X15. Clicks with no timeout in between pair up: from an idle icon, 2k
    clicks make k double clicks (each a select followed by an open) and
    leave the icon idle; one more click makes no further call and leaves
    the icon waiting with count 1. *)
Theorem icon_repeated_clicks (hasOnSelect : bool) (k : nat) (r : Icon.Refs) :
  Icon.clickCount r = 0 -> Icon.armed r = [] ->
  (snd (Icon.run hasOnSelect (repeat Icon.click (2 * k)) r)
   = List.concat (repeat (Icon.callOnSelect hasOnSelect ++ [Icon.onDoubleClick])
               k)
   /\ Icon.clickCount
        (fst (Icon.run hasOnSelect (repeat Icon.click (2 * k)) r)) = 0)
  /\ (snd (Icon.run hasOnSelect (repeat Icon.click (2 * k + 1)) r)
      = List.concat (repeat (Icon.callOnSelect hasOnSelect
                          ++ [Icon.onDoubleClick]) k)
      /\ Icon.clickCount
           (fst (Icon.run hasOnSelect (repeat Icon.click (2 * k + 1)) r))
         = 1).
Proof.
  revert r. induction k as [|k IH]; intros r Hc Ha.
  - destruct r as [c t a n]. simpl in Hc, Ha. subst c a.
    simpl. auto.
  - replace (2 * S k)%nat with (S (S (2 * k))) by lia.
    replace (S (S (2 * k)) + 1)%nat with (S (S (2 * k + 1))) by lia.
    cbn [repeat].
    destruct (icon_two_clicks hasOnSelect r (repeat Icon.click (2 * k))
                Hc Ha) as [r1 [Hc1 [Ha1 E1]]].
    destruct (icon_two_clicks hasOnSelect r (repeat Icon.click (2 * k + 1))
                Hc Ha) as [r2 [Hc2 [Ha2 E2]]].
    rewrite E1, E2. cbn [fst snd List.concat].
    destruct (IH r1 Hc1 Ha1) as [[Hcalls1 Hcount1] _].
    destruct (IH r2 Hc2 Ha2) as [_ [Hcalls2 Hcount2]].
    rewrite Hcalls1, Hcalls2. auto.
Qed.

(** * Properties of the parking assistant *)

Lemma getProperty_own {A : Type} (table : list (string * A)) key v :
  Parking.getProperty table key = Parking.own v -> In (key, v) table.
Proof.
  unfold Parking.getProperty.
  destruct (find (fun entry => String.eqb (fst entry) key) table)
    as [[k v']|] eqn:E.
  - intros H. inversion H; subst. apply find_some in E.
    destruct E as [Hin Hk]. simpl in Hk. apply String.eqb_eq in Hk.
    subst k. exact Hin.
  - destruct (existsb (String.eqb key) Parking.objectPrototypeKeys);
      discriminate.
Qed.

Lemma getProperty_missing {A : Type} (table : list (string * A)) key :
  ~ In key (map fst table) ->
  Parking.getProperty table key
  = if existsb (String.eqb key) Parking.objectPrototypeKeys
    then Parking.inherited else Parking.undefined.
Proof.
  intros H. unfold Parking.getProperty.
  destruct (find (fun entry => String.eqb (fst entry) key) table)
    as [[k v]|] eqn:E; [|reflexivity].
  apply find_some in E. destruct E as [Hin Hk]. simpl in Hk.
  apply String.eqb_eq in Hk. subst k. exfalso. apply H.
  apply (in_map fst) in Hin. exact Hin.
Qed.

Lemma findOrThrow_found {A : Type} (callback : A -> option bool) l a :
  Parking.findOrThrow callback l = Some (Some a) ->
  In a l /\ callback a = Some true.
Proof.
  induction l as [|b l IH]; simpl; [discriminate|].
  destruct (callback b) as [[|]|] eqn:E; [| |discriminate].
  - intros H. inversion H; subst. auto.
  - intros H. destruct (IH H). auto.
Qed.

Ltac hours :=
  repeat match goal with
         | H : Some _ = Some _ |- _ => injection H as H
         | H : _ && _ = true |- _ => apply andb_true_iff in H; destruct H
         | H : (_ <=? _) = true |- _ => apply Z.leb_le in H
         | H : (_ <? _) = true |- _ => apply Z.ltb_lt in H
         end.

(** Every slot of the table that [inCleaningTime] accepts has the hour
    between 8 and 10 and ends at 10am or 11am. *)
Lemma accepted_slot_hours currentDay currentHour district schedule s :
  In (district, schedule) Parking.STREET_CLEANING_SCHEDULES ->
  In s schedule ->
  Parking.inCleaningTime currentDay currentHour s = Some true ->
  8 <= currentHour < 11
  /\ (nth_error (Parking.split "-" (Parking.time s)) 1 = Some "10am"
      \/ nth_error (Parking.split "-" (Parking.time s)) 1 = Some "11am").
Proof.
  intros Htable Hs.
  simpl in Htable.
  repeat (destruct Htable as [Htable|Htable];
          [inversion Htable; subst; clear Htable|]);
    try contradiction;
    simpl in Hs;
    repeat (destruct Hs as [Hs|Hs]; [subst s|]); try contradiction;
    unfold Parking.inCleaningTime; simpl Parking.day;
    destruct (Parking.includes _ currentDay); simpl;
    intros H; try discriminate; hours; split; auto; lia.
Qed.

(** X16. Whenever [checkParkingRules] reports a forbidden rule, for any
    district, weekday text and hour, the district is a key of the schedule
    table, the hour is 8, 9 or 10, the ticket cost shown is 76, and the rule
    ends at 10am or 11am. *)
Theorem forbidden_rule_details district currentDay currentHour rule :
  Parking.parkingRule
    (Parking.checkParkingRules district currentDay currentHour)
  = Some rule ->
  Parking.type rule = Parking.forbidden ->
  In district (map fst Parking.STREET_CLEANING_SCHEDULES)
  /\ 8 <= currentHour < 11
  /\ Parking.cost rule = Some 76
  /\ (Parking.timeUntilChange rule = Some "10am"
      \/ Parking.timeUntilChange rule = Some "11am").
Proof.
  unfold Parking.checkParkingRules. cbn [Parking.parkingRule].
  destruct (Parking.getProperty Parking.STREET_CLEANING_SCHEDULES district)
    as [schedule| |] eqn:Eg.
  - apply getProperty_own in Eg.
    destruct (Parking.findOrThrow
                (Parking.inCleaningTime currentDay currentHour) schedule)
      as [[s|]|] eqn:Ef; intros H Ht; inversion H; subst; clear H;
      [|discriminate].
    apply findOrThrow_found in Ef. destruct Ef as [Hs Hactive].
    destruct (accepted_slot_hours _ _ _ _ _ Eg Hs Hactive) as [Hh Hend].
    split; [|split; [exact Hh | split; [reflexivity | exact Hend]]].
    apply (in_map fst) in Eg. exact Eg.
  - discriminate.
  - simpl. intros H Ht. inversion H; subst. discriminate.
Qed.

Lemma noon_slot_rejected currentDay currentHour slotDay slotSide :
  Parking.inCleaningTime currentDay currentHour
    (Parking.mkSchedule slotDay "12pm-2pm" slotSide) = Some false.
Proof.
  unfold Parking.inCleaningTime. simpl.
  destruct (Parking.includes slotDay currentDay); simpl; [|reflexivity].
  destruct (Z.leb_spec 12 currentHour), (Z.ltb_spec currentHour 2);
    simpl; try reflexivity; lia.
Qed.

(** X17. A slot written 12pm-2pm is never found active: its hours are read
    as 12 and 2, and no hour is at least 12 and below 2.  So in SoMa and in
    Castro, whose slots are all written that way, parking is reported as
    allowed on every day at every hour, also during street cleaning. *)
Theorem noon_cleaning_never_reported (currentDay : string) (currentHour : Z) :
  Parking.checkParkingRules "SoMa" currentDay currentHour
  = Parking.mkRuleCheck "SoMa"
      (Some (Parking.mkParkingRule Parking.allowed
               "Parking currently allowed" None None
               (Some "Next street cleaning: Tuesday 12pm-2pm")))
  /\ Parking.checkParkingRules "Castro" currentDay currentHour
     = Parking.mkRuleCheck "Castro"
         (Some (Parking.mkParkingRule Parking.allowed
                  "Parking currently allowed" None None
                  (Some "Next street cleaning: Wednesday 12pm-2pm"))).
Proof.
  unfold Parking.checkParkingRules.
  split; cbn [Parking.getProperty Parking.STREET_CLEANING_SCHEDULES find
                fst snd String.eqb Ascii.eqb Bool.eqb Parking.findOrThrow];
    rewrite !noon_slot_rejected; reflexivity.
Qed.

Ltac compare_hours :=
  repeat match goal with
         | |- context [?a <=? ?b] => destruct (Z.leb_spec a b)
         | |- context [?a <? ?b] => destruct (Z.ltb_spec a b)
         end;
  simpl; try reflexivity; try lia.

(** X18. On the seven weekdays, [checkParkingRules] reports a forbidden
    rule exactly in the morning slots of the table: for every district text,
    weekday and hour, the report is forbidden if and only if the table
    lists a morning slot of that district on that weekday that holds the
    hour. *)
Theorem morning_slots_reported (district : string) (d : Parking.Weekday)
  (currentHour : Z) :
  Parking.isForbidden
    (Parking.checkParkingRules district (Parking.weekdayLong d) currentHour)
  = Parking.inMorningSlot district d currentHour.
Proof.
  destruct (String.eqb_spec "Mission" district) as [E|N1];
    [subst district; destruct d; cbv -[Z.leb Z.ltb]; compare_hours|].
  destruct (String.eqb_spec "SoMa" district) as [E|N2];
    [subst district; destruct d; cbv -[Z.leb Z.ltb]; compare_hours|].
  destruct (String.eqb_spec "Financial District" district) as [E|N3];
    [subst district; destruct d; cbv -[Z.leb Z.ltb]; compare_hours|].
  destruct (String.eqb_spec "Richmond" district) as [E|N4];
    [subst district; destruct d; cbv -[Z.leb Z.ltb]; compare_hours|].
  destruct (String.eqb_spec "Sunset" district) as [E|N5];
    [subst district; destruct d; cbv -[Z.leb Z.ltb]; compare_hours|].
  destruct (String.eqb_spec "Marina" district) as [E|N6];
    [subst district; destruct d; cbv -[Z.leb Z.ltb]; compare_hours|].
  destruct (String.eqb_spec "Haight-Ashbury" district) as [E|N7];
    [subst district; destruct d; cbv -[Z.leb Z.ltb]; compare_hours|].
  destruct (String.eqb_spec "Castro" district) as [E|N8];
    [subst district; destruct d; cbv -[Z.leb Z.ltb]; compare_hours|].
  apply String.eqb_neq in N1, N2, N3, N4, N5, N6, N7, N8.
  unfold Parking.inMorningSlot, Parking.isForbidden,
    Parking.checkParkingRules, Parking.getProperty.
  cbn [Parking.morningSlots existsb Parking.STREET_CLEANING_SCHEDULES find
         fst snd Parking.parkingRule].
  rewrite N1, N2, N3, N4, N5, N6, N7, N8.
  destruct (existsb (String.eqb district) Parking.objectPrototypeKeys);
    reflexivity.
Qed.

(** X19. For a district that is not a key of the schedule table,
    [checkParkingRules] still selects the district; it then reports parking
    as allowed with no scheduled street cleaning, unless the text names a
    property of [Object.prototype], in which case the value read is not an
    array, the call throws and no rule is set. *)
Theorem district_without_schedule district currentDay currentHour :
  ~ In district (map fst Parking.STREET_CLEANING_SCHEDULES) ->
  Parking.checkParkingRules district currentDay currentHour
  = Parking.mkRuleCheck district
      (if existsb (String.eqb district) Parking.objectPrototypeKeys
       then None
       else Some (Parking.mkParkingRule Parking.allowed
                    "Parking currently allowed" None None
                    (Some "No scheduled street cleaning"))).
Proof.
  intros H. unfold Parking.checkParkingRules.
  rewrite (getProperty_missing _ _ H).
  destruct (existsb (String.eqb district) Parking.objectPrototypeKeys);
    reflexivity.
Qed.

(** ** The total of a list of violations *)

Lemma total_text violations :
  fold_left Parking.addCost violations Parking.text = Parking.text.
Proof.
  induction violations as [|v l IH]; simpl; [reflexivity | exact IH].
Qed.

(** The [reduce] started from [n] is the [reduce] started from 0, moved
    by [n]. *)
Lemma total_from n violations :
  fold_left Parking.addCost violations (Parking.number n)
  = match Parking.calculateTotalCost violations with
    | Parking.number m => Parking.number (n + m)
    | Parking.text => Parking.text
    end.
Proof.
  unfold Parking.calculateTotalCost. revert n.
  induction violations as [|v l IH]; intros n.
  - simpl. f_equal. lia.
  - cbn [fold_left]. unfold Parking.addCost at 2 4.
    destruct (Parking.getProperty Parking.VIOLATION_COSTS v) as [c| |].
    + rewrite (IH (n + _)), (IH (0 + _)).
      destruct (fold_left Parking.addCost l (Parking.number 0));
        [f_equal; lia | reflexivity].
    + rewrite total_text. reflexivity.
    + rewrite (IH (n + 0)), (IH (0 + 0)).
      destruct (fold_left Parking.addCost l (Parking.number 0));
        [f_equal; lia | reflexivity].
Qed.

Lemma total_cons v violations :
  Parking.calculateTotalCost (v :: violations)
  = match Parking.addCost (Parking.number 0) v with
    | Parking.number c =>
        match Parking.calculateTotalCost violations with
        | Parking.number m => Parking.number (c + m)
        | Parking.text => Parking.text
        end
    | Parking.text => Parking.text
    end.
Proof.
  unfold Parking.calculateTotalCost at 1. cbn [fold_left].
  destruct (Parking.addCost (Parking.number 0) v) as [c|].
  - apply total_from.
  - apply total_text.
Qed.

Lemma total_app l1 l2 :
  Parking.calculateTotalCost (l1 ++ l2)
  = match Parking.calculateTotalCost l1 with
    | Parking.number a =>
        match Parking.calculateTotalCost l2 with
        | Parking.number b => Parking.number (a + b)
        | Parking.text => Parking.text
        end
    | Parking.text => Parking.text
    end.
Proof.
  unfold Parking.calculateTotalCost at 1 2. rewrite fold_left_app.
  destruct (fold_left Parking.addCost l1 (Parking.number 0)) as [a|].
  - apply total_from.
  - apply total_text.
Qed.

(** X20. When the totals of two lists are numbers, the total of the lists
    put together is their sum, and the total of a list does not depend on
    the order of its entries. *)
Theorem total_cost_additive :
  (forall l1 l2 a b,
     Parking.calculateTotalCost l1 = Parking.number a ->
     Parking.calculateTotalCost l2 = Parking.number b ->
     Parking.calculateTotalCost (l1 ++ l2) = Parking.number (a + b))
  /\ (forall l l' a,
        Permutation l l' ->
        Parking.calculateTotalCost l = Parking.number a ->
        Parking.calculateTotalCost l' = Parking.number a).
Proof.
  split.
  - intros l1 l2 a b H1 H2. rewrite total_app, H1, H2. reflexivity.
  - intros l l' a Hp. revert a.
    induction Hp as [|v l l' Hp IH|v1 v2 l|l l' l'' Hp1 IH1 Hp2 IH2];
      intros a H.
    + exact H.
    + rewrite total_cons in *.
      destruct (Parking.addCost (Parking.number 0) v) as [c|];
        [|discriminate].
      destruct (Parking.calculateTotalCost l) as [m|]; [|discriminate].
      rewrite (IH m eq_refl). exact H.
    + rewrite !total_cons in *.
      destruct (Parking.addCost (Parking.number 0) v1) as [c1|],
               (Parking.addCost (Parking.number 0) v2) as [c2|];
        try discriminate.
      destruct (Parking.calculateTotalCost l) as [m|]; [|discriminate].
      inversion H; subst. f_equal. lia.
    + apply IH2, IH1, H.
Qed.

Lemma cost_range v c :
  Parking.getProperty Parking.VIOLATION_COSTS v = Parking.own c ->
  76 <= c <= 866.
Proof.
  intros H. apply getProperty_own in H. simpl in H.
  repeat (destruct H as [H|H]; [inversion H; subst; lia|]).
  contradiction.
Qed.

(** X21. When the total is a number it lies between 0 and 866 (the
    dearest violation) times the number of entries; an entry that is
    neither a key of the cost table nor a property of [Object.prototype]
    adds nothing, wherever it stands; and an entry that names a property
    of [Object.prototype] makes the total a string instead of a number. *)
Theorem total_cost_bounds :
  (forall l a,
     Parking.calculateTotalCost l = Parking.number a ->
     0 <= a <= 866 * Z.of_nat (List.length l))
  /\ (forall l1 v l2,
        Parking.getProperty Parking.VIOLATION_COSTS v = Parking.undefined ->
        Parking.calculateTotalCost (l1 ++ v :: l2)
        = Parking.calculateTotalCost (l1 ++ l2))
  /\ (forall l1 v l2,
        Parking.getProperty Parking.VIOLATION_COSTS v = Parking.inherited ->
        Parking.calculateTotalCost (l1 ++ v :: l2) = Parking.text).
Proof.
  split; [|split].
  - induction l as [|v l IH]; intros a H.
    + inversion H. simpl. lia.
    + rewrite total_cons in H. unfold Parking.addCost in H.
      cbn [List.length]. rewrite Nat2Z.inj_succ.
      destruct (Parking.getProperty Parking.VIOLATION_COSTS v) as [c| |]
        eqn:E; [| discriminate |];
        destruct (Parking.calculateTotalCost l) as [m|]; try discriminate;
        specialize (IH m eq_refl); injection H as H.
      * pose proof (cost_range v c E).
        destruct (Z.eqb_spec c 0); lia.
      * lia.
  - intros l1 v l2 E. rewrite !total_app, total_cons.
    unfold Parking.addCost. rewrite E.
    destruct (Parking.calculateTotalCost l1) as [a|]; [|reflexivity].
    destruct (Parking.calculateTotalCost l2) as [b|]; reflexivity.
  - intros l1 v l2 E. rewrite total_app, total_cons.
    unfold Parking.addCost. rewrite E.
    destruct (Parking.calculateTotalCost l1); reflexivity.
Qed.

(** * Properties of the chat route *)

Lemma pop_app_last {A : Type} (l : list A) (a : A) : Chat.pop (l ++ [a]) = Some a.
Proof.
  induction l as [|b l IH]; [reflexivity|].
  simpl. rewrite IH. destruct (l ++ [a]) eqn:E; [|reflexivity].
  destruct l; discriminate.
Qed.

Lemma pop_none {A : Type} (l : list A) : Chat.pop l = None <-> l = [].
Proof.
  split; [|intros ->; reflexivity].
  induction l as [|a l IH]; [reflexivity|].
  simpl. destruct l; [discriminate|]. intros H. apply IH in H. discriminate.
Qed.

Lemma no_user_filter messages :
  filter Chat.isUser messages = []
  <-> Forall (fun m => Chat.role m <> "user") messages.
Proof.
  induction messages as [|m l IH]; simpl.
  - split; constructor.
  - unfold Chat.isUser at 1.
    destruct (String.eqb_spec (Chat.role m) "user") as [E|E].
    + split; [discriminate|]. intros H. inversion H; subst. contradiction.
    + rewrite IH. split; [constructor; assumption|].
      intros H. inversion H; assumption.
Qed.

Lemma null_entry_found entries :
  In Chat.nullEntry entries -> existsb Chat.isNullEntry entries = true.
Proof.
  intros H. apply existsb_exists. exists Chat.nullEntry. auto.
Qed.

Lemma null_entry_absent entries :
  ~ In Chat.nullEntry entries -> existsb Chat.isNullEntry entries = false.
Proof.
  intros H. destruct (existsb Chat.isNullEntry entries) eqn:E; [|reflexivity].
  apply existsb_exists in E. destruct E as [[|r c] [Hin He]];
    [contradiction | discriminate].
Qed.

Lemma no_user_entry entries :
  (forall c, ~ In (Chat.valueEntry (Some "user") c) entries) ->
  filter Chat.entryIsUser entries = [].
Proof.
  induction entries as [|e l IH]; intros H; simpl; [reflexivity|].
  destruct (Chat.entryIsUser e) eqn:E.
  - exfalso. destruct e as [|[r|] c]; try discriminate.
    simpl in E. apply String.eqb_eq in E. subst r.
    apply (H c). left. reflexivity.
  - apply IH. intros c Hc. apply (H c). right. exact Hc.
Qed.

Lemma last_user_entry before c after :
  (forall c', ~ In (Chat.valueEntry (Some "user") c') after) ->
  Chat.pop (filter Chat.entryIsUser
              (before ++ Chat.valueEntry (Some "user") c :: after))
  = Some (Chat.valueEntry (Some "user") c).
Proof.
  intros Hafter. rewrite filter_app. simpl.
  rewrite (no_user_entry after Hafter). apply pop_app_last.
Qed.

Lemma renderEntries_all entries :
  Forall (fun e => Chat.renderEntry e <> None) entries ->
  exists lines, Chat.renderEntries entries = Some lines.
Proof.
  induction 1 as [|e l He _ [lines IH]]; simpl; [eauto|].
  destruct (Chat.renderEntry e); [|contradiction]. rewrite IH. eauto.
Qed.

Lemma renderEntries_throws entries :
  Exists (fun e => Chat.renderEntry e = None) entries ->
  Chat.renderEntries entries = None.
Proof.
  induction 1 as [e l He|e l _ IH]; simpl.
  - rewrite He. reflexivity.
  - rewrite IH. destruct (Chat.renderEntry e); reflexivity.
Qed.

Lemma pop_map {A B : Type} (f : A -> B) (l : list A) :
  Chat.pop (map f l) = option_map f (Chat.pop l).
Proof.
  induction l as [|a l IH]; [reflexivity|].
  simpl. destruct l; [reflexivity | exact IH].
Qed.

Lemma removelast_map_typed messages :
  removelast (map Chat.typedEntry messages)
  = map Chat.typedEntry (removelast messages).
Proof.
  induction messages as [|m l IH]; [reflexivity|].
  simpl. destruct l; [reflexivity|]. simpl in *. rewrite IH. reflexivity.
Qed.

Lemma typed_entries_users messages :
  filter Chat.entryIsUser (map Chat.typedEntry messages)
  = map Chat.typedEntry (filter Chat.isUser messages).
Proof.
  induction messages as [|m l IH]; [reflexivity|].
  simpl. unfold Chat.isUser at 1. destruct (String.eqb (Chat.role m) "user");
    simpl; rewrite IH; reflexivity.
Qed.

Lemma typed_entries_render messages :
  Chat.renderEntries (map Chat.typedEntry messages)
  = Some (map Chat.renderMessage messages).
Proof.
  induction messages as [|m l IH]; [reflexivity|].
  simpl. rewrite IH. reflexivity.
Qed.

Lemma typed_entries_answer messages :
  Chat.POST (Chat.jsonEntries (map Chat.typedEntry messages))
  = Chat.POST (Chat.jsonValue (Some messages)).
Proof.
  unfold Chat.POST, Chat.answerEntries.
  rewrite null_entry_absent.
  - rewrite typed_entries_users, pop_map.
    destruct (Chat.pop (filter Chat.isUser messages)) as [m|]; [|reflexivity].
    cbn [option_map]. rewrite removelast_map_typed, typed_entries_render.
    cbn [Chat.typedEntry Chat.contentOf Chat.printed Chat.hasLength].
    unfold Chat.fullPrompt, Chat.conversationContext, Chat.promptFor.
    destruct (Chat.join (Chat.lf ++ Chat.lf)
                (map Chat.renderMessage (removelast messages)));
      reflexivity.
  - intros H. apply in_map_iff in H. destruct H as [m [E _]]. discriminate.
Qed.

(** X22. What [POST] answers.  A body that is not JSON or is [null] gets
    status 500, and a body whose [messages] is not an array gets 400
    [Messages array is required].  For an array, with entries of any kind:
    a [null] entry gets 500; otherwise no entry of role [user], the empty
    array included, gets 400 [No user message found]; otherwise the answer
    is status 200 with the event stream when the content of the last user
    entry can be printed and has a [length] and the contents of all entries
    but the final one can be printed, and 500 when one of these fails (a
    user message without content, for one).  An array of messages as the
    type describes them is answered as such: with 400 when none is from the
    user and with status 200 and the stream otherwise. *)
Theorem POST_answers :
  Chat.POST Chat.unparsable
  = Chat.mkResponse 500 Chat.jsonHeaders
      (Chat.json
         "Failed to process chat request. Check server logs for details.")
  /\ Chat.POST Chat.jsonNull = Chat.POST Chat.unparsable
  /\ Chat.POST (Chat.jsonValue None)
     = Chat.mkResponse 400 Chat.jsonHeaders
         (Chat.json "Messages array is required")
  /\ (forall entries,
        In Chat.nullEntry entries ->
        Chat.POST (Chat.jsonEntries entries) = Chat.POST Chat.unparsable)
  /\ (forall entries,
        ~ In Chat.nullEntry entries ->
        (forall c, ~ In (Chat.valueEntry (Some "user") c) entries) ->
        Chat.POST (Chat.jsonEntries entries)
        = Chat.mkResponse 400 Chat.jsonHeaders
            (Chat.json "No user message found"))
  /\ (forall before c after,
        ~ In Chat.nullEntry
            (before ++ Chat.valueEntry (Some "user") c :: after) ->
        (forall c', ~ In (Chat.valueEntry (Some "user") c') after) ->
        (Chat.printed c <> None -> Chat.hasLength c = true ->
         Forall (fun e => Chat.renderEntry e <> None)
           (removelast (before ++ Chat.valueEntry (Some "user") c :: after))
         ->
         Chat.status
           (Chat.POST (Chat.jsonEntries
                         (before ++ Chat.valueEntry (Some "user") c
                            :: after))) = 200
         /\ Chat.headers
              (Chat.POST (Chat.jsonEntries
                            (before ++ Chat.valueEntry (Some "user") c
                               :: after))) = Chat.streamHeaders
         /\ exists prompt,
              Chat.responseBody
                (Chat.POST (Chat.jsonEntries
                              (before ++ Chat.valueEntry (Some "user") c
                                 :: after)))
              = Chat.eventStream prompt)
        /\ (Chat.printed c = None \/ Chat.hasLength c = false
            \/ Exists (fun e => Chat.renderEntry e = None)
                 (removelast
                    (before ++ Chat.valueEntry (Some "user") c :: after))
            ->
            Chat.POST (Chat.jsonEntries
                         (before ++ Chat.valueEntry (Some "user") c
                            :: after))
            = Chat.POST Chat.unparsable))
  /\ (forall messages,
        Chat.POST (Chat.jsonEntries (map Chat.typedEntry messages))
        = Chat.POST (Chat.jsonValue (Some messages)))
  /\ (forall messages,
        Forall (fun m => Chat.role m <> "user") messages ->
        Chat.POST (Chat.jsonValue (Some messages))
        = Chat.mkResponse 400 Chat.jsonHeaders
            (Chat.json "No user message found"))
  /\ (forall messages m,
        In m messages -> Chat.role m = "user" ->
        Chat.status (Chat.POST (Chat.jsonValue (Some messages))) = 200
        /\ Chat.headers (Chat.POST (Chat.jsonValue (Some messages)))
           = Chat.streamHeaders
        /\ exists prompt,
             Chat.responseBody (Chat.POST (Chat.jsonValue (Some messages)))
             = Chat.eventStream prompt).
Proof.
  split; [reflexivity | split; [reflexivity | split; [reflexivity|]]].
  split; [|split; [|split; [|split; [|split]]]].
  - intros entries H. unfold Chat.POST, Chat.answerEntries.
    rewrite (null_entry_found entries H). reflexivity.
  - intros entries Hnull Huser. unfold Chat.POST, Chat.answerEntries.
    rewrite (null_entry_absent entries Hnull), (no_user_entry entries Huser).
    reflexivity.
  - intros before c after Hnull Hafter.
    unfold Chat.POST, Chat.answerEntries.
    rewrite (null_entry_absent _ Hnull), (last_user_entry before c after Hafter).
    cbn [Chat.contentOf]. split.
    + intros Hp Hl Hall. destruct (renderEntries_all _ Hall) as [lines ->].
      destruct (Chat.printed c) as [question|]; [|contradiction].
      rewrite Hl. simpl. eauto.
    + intros [Hp|[Hl|Hex]].
      * rewrite Hp.
        destruct (Chat.renderEntries
                    (removelast
                       (before ++ Chat.valueEntry (Some "user") c :: after)));
          reflexivity.
      * rewrite Hl.
        destruct (Chat.renderEntries
                    (removelast
                       (before ++ Chat.valueEntry (Some "user") c :: after))),
                 (Chat.printed c); reflexivity.
      * rewrite (renderEntries_throws _ Hex). reflexivity.
  - apply typed_entries_answer.
  - intros messages H. apply no_user_filter in H.
    unfold Chat.POST. rewrite H. reflexivity.
  - intros messages m Hin Hm. unfold Chat.POST.
    destruct (Chat.pop (filter Chat.isUser messages)) eqn:E.
    + split; [reflexivity | split; [reflexivity | simpl; eauto]].
    + apply pop_none, no_user_filter in E. rewrite Forall_forall in E.
      exfalso. apply (E m); assumption.
Qed.

Lemma last_user_message before m after :
  Chat.role m = "user" ->
  Forall (fun a => Chat.role a <> "user") after ->
  Chat.pop (filter Chat.isUser (before ++ m :: after)) = Some m.
Proof.
  intros Hm Hafter. rewrite filter_app. simpl.
  unfold Chat.isUser at 2. rewrite Hm. simpl.
  apply no_user_filter in Hafter. rewrite Hafter. apply pop_app_last.
Qed.

Lemma renderMessage_nonempty m : Chat.renderMessage m <> EmptyString.
Proof.
  unfold Chat.renderMessage. destruct (Chat.isUser m); discriminate.
Qed.

Lemma join_nonempty sep a l :
  a <> EmptyString -> Chat.join sep (a :: l) <> EmptyString.
Proof.
  intros Ha. simpl. destruct l; [exact Ha|].
  destruct a; [contradiction | discriminate].
Qed.

Lemma context_of_earlier earlier final :
  Chat.conversationContext (earlier ++ [final])
  = Chat.join (Chat.lf ++ Chat.lf)%string (map Chat.renderMessage earlier).
Proof.
  unfold Chat.conversationContext. rewrite removelast_last. reflexivity.
Qed.

(** X23. The question put to the agent is the content of the last message
    of role [user], wherever it stands.  With a single message the prompt
    is the system prompt and that question.  With more, all messages but
    the final one are listed between them under [Previous conversation:],
    in order, each as [User: ] or [Assistant: ] and its content, separated
    by blank lines. *)
Theorem prompt_of_conversation :
  (forall m,
     Chat.role m = "user" ->
     Chat.POST (Chat.jsonValue (Some [m]))
     = Chat.mkResponse 200 Chat.streamHeaders
         (Chat.eventStream
            (Chat.SYSTEM_PROMPT ++ Chat.lf ++ Chat.lf ++ "User: "
               ++ Chat.content m)%string))
  /\ (forall first earlier final before m after,
        first :: earlier ++ [final] = before ++ m :: after ->
        Chat.role m = "user" ->
        Forall (fun a => Chat.role a <> "user") after ->
        Chat.POST (Chat.jsonValue (Some (first :: earlier ++ [final])))
        = Chat.mkResponse 200 Chat.streamHeaders
            (Chat.eventStream
               (Chat.SYSTEM_PROMPT ++ Chat.lf ++ Chat.lf
                  ++ "Previous conversation:" ++ Chat.lf
                  ++ Chat.join (Chat.lf ++ Chat.lf)
                       (map Chat.renderMessage (first :: earlier))
                  ++ Chat.lf ++ Chat.lf ++ "User: "
                  ++ Chat.content m)%string)).
Proof.
  split.
  - intros m Hm. unfold Chat.POST. simpl. unfold Chat.isUser. rewrite Hm.
    reflexivity.
  - intros first earlier final before m after Hsplit Hm Hafter.
    unfold Chat.POST. rewrite Hsplit at 1.
    rewrite (last_user_message before m after Hm Hafter).
    unfold Chat.fullPrompt.
    change (first :: earlier ++ [final]) with ((first :: earlier) ++ [final]).
    rewrite context_of_earlier.
    destruct (Chat.join (Chat.lf ++ Chat.lf)
                (map Chat.renderMessage (first :: earlier))) eqn:E.
    + exfalso. revert E. apply join_nonempty, renderMessage_nonempty.
    + reflexivity.
Qed.

(** X24. A final message that is not from the user never reaches the
    agent: two conversations that differ only in such a final message get
    the same answer, prompt included. *)
Theorem final_reply_ignored earlier final1 final2 :
  Chat.role final1 <> "user" -> Chat.role final2 <> "user" ->
  Chat.POST (Chat.jsonValue (Some (earlier ++ [final1])))
  = Chat.POST (Chat.jsonValue (Some (earlier ++ [final2]))).
Proof.
  intros H1 H2. unfold Chat.POST.
  rewrite !filter_app. simpl. unfold Chat.isUser at 2 4.
  apply String.eqb_neq in H1, H2. rewrite H1, H2, !app_nil_r.
  destruct (Chat.pop (filter Chat.isUser earlier)); [|reflexivity].
  unfold Chat.fullPrompt. rewrite !context_of_earlier. reflexivity.
Qed.

(** ** The event stream *)

Lemma relay_block st b :
  flat_map Chat.frameText (Chat.frames (Chat.onBlock st b))
  = flat_map Chat.frameText (Chat.frames st)
  /\ flat_map Chat.frameTool (Chat.frames (Chat.onBlock st b))
     = flat_map Chat.frameTool (Chat.frames st) ++ Chat.blockTool b
  /\ Chat.toolExecutions (Chat.onBlock st b)
     = Chat.toolExecutions st ++ Chat.blockTool b
  /\ Chat.toolsExecuted (Chat.onBlock st b)
     = Chat.toolsExecuted st + Z.of_nat (List.length (Chat.blockTool b))
  /\ Chat.streamChunkCount (Chat.onBlock st b) = Chat.streamChunkCount st.
Proof.
  destruct b as [name|]; simpl; rewrite ?flat_map_app, ?app_nil_r; simpl;
    rewrite ?app_nil_r; repeat split; try reflexivity; lia.
Qed.

Lemma relay_blocks blocks st :
  flat_map Chat.frameText (Chat.frames (fold_left Chat.onBlock blocks st))
  = flat_map Chat.frameText (Chat.frames st)
  /\ flat_map Chat.frameTool (Chat.frames (fold_left Chat.onBlock blocks st))
     = flat_map Chat.frameTool (Chat.frames st)
       ++ flat_map Chat.blockTool blocks
  /\ Chat.toolExecutions (fold_left Chat.onBlock blocks st)
     = Chat.toolExecutions st ++ flat_map Chat.blockTool blocks
  /\ Chat.toolsExecuted (fold_left Chat.onBlock blocks st)
     = Chat.toolsExecuted st
       + Z.of_nat (List.length (flat_map Chat.blockTool blocks))
  /\ Chat.streamChunkCount (fold_left Chat.onBlock blocks st)
     = Chat.streamChunkCount st.
Proof.
  revert st. induction blocks as [|b blocks IH]; intros st.
  - simpl. rewrite !app_nil_r. repeat split; lia.
  - cbn [fold_left flat_map].
    destruct (IH (Chat.onBlock st b)) as (H1 & H2 & H3 & H4 & H5).
    destruct (relay_block st b) as (B1 & B2 & B3 & B4 & B5).
    rewrite H1, H2, H3, H4, H5, B1, B2, B3, B4, B5, !length_app, !app_assoc.
    repeat split; lia.
Qed.

Lemma relay_message st m :
  flat_map Chat.frameText (Chat.frames (Chat.onMessage st m))
  = flat_map Chat.frameText (Chat.frames st) ++ Chat.messageText m
  /\ flat_map Chat.frameTool (Chat.frames (Chat.onMessage st m))
     = flat_map Chat.frameTool (Chat.frames st) ++ Chat.messageTools m
  /\ Chat.toolExecutions (Chat.onMessage st m)
     = Chat.toolExecutions st ++ Chat.messageTools m
  /\ Chat.toolsExecuted (Chat.onMessage st m)
     = Chat.toolsExecuted st + Z.of_nat (List.length (Chat.messageTools m))
  /\ Chat.streamChunkCount (Chat.onMessage st m)
     = Chat.streamChunkCount st
       + Z.of_nat (List.length (Chat.messageText m)).
Proof.
  destruct m as [[[[[text|]|]|]|]|[blocks|]|tool elapsed|subtype|];
    try (simpl; rewrite ?flat_map_app, ?app_nil_r; simpl;
         rewrite ?app_nil_r; repeat split; try reflexivity; lia).
  - cbn [Chat.onMessage Chat.messageText Chat.messageTools].
    destruct (relay_blocks blocks st) as (H1 & H2 & H3 & H4 & H5).
    rewrite H1, H2, H3, H4, H5, app_nil_r. simpl. repeat split; lia.
  - simpl. destruct (String.eqb subtype "success"); simpl;
      rewrite ?flat_map_app, ?app_nil_r; simpl; rewrite ?app_nil_r;
      repeat split; try reflexivity; lia.
Qed.

Lemma relay_messages messages st :
  flat_map Chat.frameText (Chat.frames (fold_left Chat.onMessage messages st))
  = flat_map Chat.frameText (Chat.frames st)
    ++ flat_map Chat.messageText messages
  /\ flat_map Chat.frameTool
       (Chat.frames (fold_left Chat.onMessage messages st))
     = flat_map Chat.frameTool (Chat.frames st)
       ++ flat_map Chat.messageTools messages
  /\ Chat.toolExecutions (fold_left Chat.onMessage messages st)
     = Chat.toolExecutions st ++ flat_map Chat.messageTools messages
  /\ Chat.toolsExecuted (fold_left Chat.onMessage messages st)
     = Chat.toolsExecuted st
       + Z.of_nat (List.length (flat_map Chat.messageTools messages))
  /\ Chat.streamChunkCount (fold_left Chat.onMessage messages st)
     = Chat.streamChunkCount st
       + Z.of_nat (List.length (flat_map Chat.messageText messages)).
Proof.
  revert st. induction messages as [|m messages IH]; intros st.
  - simpl. rewrite !app_nil_r. repeat split; lia.
  - cbn [fold_left flat_map].
    destruct (IH (Chat.onMessage st m)) as (H1 & H2 & H3 & H4 & H5).
    destruct (relay_message st m) as (M1 & M2 & M3 & M4 & M5).
    rewrite H1, H2, H3, H4, H5, M1, M2, M3, M4, M5, !length_app, !app_assoc.
    repeat split; lia.
Qed.

(** X25. The stream relays the agent's output in order and in full: the
    texts of its text frames are the texts of the SDK's text deltas, the
    tools of its tool-start frames are the names of the SDK's tool-use
    blocks, both in the order received, whether or not the SDK throws in
    the end; [toolExecutions] holds the same names, and the two counters
    are the numbers of those frames. *)
Theorem stream_relays_in_order (messages : list Chat.SDKMessage)
  (throws : bool) :
  flat_map Chat.frameText (Chat.frames (Chat.start messages throws))
  = flat_map Chat.messageText messages
  /\ flat_map Chat.frameTool (Chat.frames (Chat.start messages throws))
     = flat_map Chat.messageTools messages
  /\ Chat.toolExecutions (Chat.start messages throws)
     = flat_map Chat.messageTools messages
  /\ Chat.toolsExecuted (Chat.start messages throws)
     = Z.of_nat (List.length (flat_map Chat.messageTools messages))
  /\ Chat.streamChunkCount (Chat.start messages throws)
     = Z.of_nat (List.length (flat_map Chat.messageText messages)).
Proof.
  destruct (relay_messages messages Chat.initialStream)
    as (H1 & H2 & H3 & H4 & H5).
  unfold Chat.start. destruct throws; simpl;
    rewrite !flat_map_app, H1, H2, H3, H4, H5; simpl;
    rewrite ?app_nil_r; repeat split; reflexivity.
Qed.

Lemma body_frames_block st b f :
  In f (Chat.frames (Chat.onBlock st b)) ->
  In f (Chat.frames st) \/ exists tool, f = Chat.toolStartFrame tool.
Proof.
  destruct b as [name|]; simpl; [|auto].
  intros H. apply in_app_iff in H. destruct H as [H|[H|[]]]; eauto.
Qed.

Lemma body_frames_blocks blocks st f :
  In f (Chat.frames (fold_left Chat.onBlock blocks st)) ->
  In f (Chat.frames st) \/ exists tool, f = Chat.toolStartFrame tool.
Proof.
  revert st. induction blocks as [|b blocks IH]; intros st; simpl; [auto|].
  intros H. apply IH in H. destruct H as [H|H]; [|auto].
  apply body_frames_block in H. exact H.
Qed.

Lemma body_frames_message st m f :
  In f (Chat.frames (Chat.onMessage st m)) ->
  In f (Chat.frames st)
  \/ (f <> Chat.endMarker /\ f <> Chat.errorFrame "Stream error occurred").
Proof.
  destruct m as [[[[[text|]|]|]|]|[blocks|]|tool elapsed|subtype|];
    simpl; auto.
  - intros H. apply in_app_iff in H. destruct H as [H|[H|[]]]; [auto|].
    right. subst f. split; discriminate.
  - intros H. apply body_frames_blocks in H.
    destruct H as [H|[tool ->]]; [auto|]. right. split; discriminate.
  - intros H. apply in_app_iff in H. destruct H as [H|[H|[]]]; [auto|].
    right. subst f. split; discriminate.
  - destruct (String.eqb subtype "success"); simpl; intros H;
      apply in_app_iff in H; destruct H as [H|[H|[]]]; auto;
      right; subst f; split; discriminate.
Qed.

Lemma body_frames_messages messages st f :
  In f (Chat.frames (fold_left Chat.onMessage messages st)) ->
  In f (Chat.frames st)
  \/ (f <> Chat.endMarker /\ f <> Chat.errorFrame "Stream error occurred").
Proof.
  revert st. induction messages as [|m messages IH]; intros st; simpl;
    [auto|].
  intros H. apply IH in H. destruct H as [H|H]; [|auto].
  apply body_frames_message in H. exact H.
Qed.

(** X26. The last frame, and only the last, tells how the stream ended: the
    frames are those made for the SDK's messages followed by the end
    marker when the SDK finished, or by the stream-error frame when it
    threw; neither of the two occurs among the frames before. *)
Theorem stream_last_frame (messages : list Chat.SDKMessage) (throws : bool) :
  exists body,
    Chat.frames (Chat.start messages throws)
    = body ++ [if throws then Chat.errorFrame "Stream error occurred"
               else Chat.endMarker]
    /\ ~ In Chat.endMarker body
    /\ ~ In (Chat.errorFrame "Stream error occurred") body.
Proof.
  exists (Chat.frames (fold_left Chat.onMessage messages Chat.initialStream)).
  split; [destruct throws; reflexivity|].
  split; intros H; apply body_frames_messages in H;
    destruct H as [[]|[H1 H2]]; contradiction.
Qed.

(** * Checks of the further properties on sample data *)

(** "b", opened last, is focused and carries the counter's value. *)
Lemma focused_record_on_top_witness :
  zIndex (mkWindowState "b" "Chat" 40 40 500 350 102 false false true tt)
  = topZIndex bOverA.
Proof.
  destruct (focused_record_on_top [Open windowA; Open windowB]
              (mkWindowState "b" "Chat" 40 40 500 350 102 false false true tt))
    as [Htop _].
  - vm_compute. right. left. reflexivity.
  - reflexivity.
  - exact Htop.
Defined.

Lemma open_existing_is_restore_witness :
  openWindow windowA bOverA = restoreWindow "a" bOverA.
Proof.
  destruct (open_existing_is_restore bOverA windowA) as [Hrestore _].
  - vm_compute. repeat constructor; simpl; intuition discriminate.
  - vm_compute. left. reflexivity.
  - exact Hrestore.
Defined.

Lemma bring_to_front_present_witness :
  countFocused (windows (focusWindow "a" bOverA)) = 1%nat
  /\ countFocused (windows (restoreWindow "a" bOverA)) = 1%nat.
Proof.
  destruct (bring_to_front_present [Open windowA; Open windowB] "a")
    as [[Hfocus _] [Hrestore _]].
  - vm_compute. left. reflexivity.
  - split; [exact Hfocus | exact Hrestore].
Defined.

(** Minimizing the focused "b" leaves no window focused. *)
Lemma minimize_only_target_witness :
  countFocused (windows (minimizeWindow "b" bOverA)) = 0%nat.
Proof.
  destruct (minimize_only_target bOverA
              (mkWindowState "b" "Chat" 40 40 500 350 102 false false true tt))
    as [ws1 [ws2 [_ [_ Hnone]]]].
  - vm_compute. repeat constructor; simpl; intuition discriminate.
  - vm_compute. right. left. reflexivity.
  - apply Hnone.
    + vm_compute. apply le_n.
    + reflexivity.
Defined.

Lemma icon_gestures_witness :
  snd (Icon.run true [Icon.click; Icon.timeout] Icon.initialRefs)
  = [Icon.onSelect]
  /\ snd (Icon.run true [Icon.click; Icon.click; Icon.timeout]
            Icon.initialRefs)
     = [Icon.onSelect; Icon.onDoubleClick].
Proof.
  destruct (icon_gestures true Icon.initialRefs) as [[H1 _] [H2 _]].
  - reflexivity.
  - reflexivity.
  - split; [exact H1 | exact H2].
Defined.

(** Three clicks in a row: one double click, and a click left waiting. *)
Lemma icon_repeated_clicks_witness :
  snd (Icon.run true [Icon.click; Icon.click; Icon.click] Icon.initialRefs)
  = [Icon.onSelect; Icon.onDoubleClick]
  /\ Icon.clickCount
       (fst (Icon.run true [Icon.click; Icon.click; Icon.click]
               Icon.initialRefs)) = 1.
Proof.
  destruct (icon_repeated_clicks true 1 Icon.initialRefs) as [_ H].
  - reflexivity.
  - reflexivity.
  - exact H.
Defined.

(** Mission on a Monday at 9. *)
Lemma forbidden_rule_details_witness :
  In "Mission" (map fst Parking.STREET_CLEANING_SCHEDULES)
  /\ 8 <= 9 < 11
  /\ Parking.cost
       (Parking.mkParkingRule Parking.forbidden
          "Street Cleaning Active (West side)" (Some 76) (Some "10am")
          (Some "Parking allowed after 10am")) = Some 76
  /\ (Parking.timeUntilChange
        (Parking.mkParkingRule Parking.forbidden
           "Street Cleaning Active (West side)" (Some 76) (Some "10am")
           (Some "Parking allowed after 10am")) = Some "10am"
      \/ Parking.timeUntilChange
           (Parking.mkParkingRule Parking.forbidden
              "Street Cleaning Active (West side)" (Some 76) (Some "10am")
              (Some "Parking allowed after 10am")) = Some "11am").
Proof.
  exact (forbidden_rule_details "Mission" "Monday" 9
           (Parking.mkParkingRule Parking.forbidden
              "Street Cleaning Active (West side)" (Some 76) (Some "10am")
              (Some "Parking allowed after 10am"))
           eq_refl eq_refl).
Defined.

Lemma district_without_schedule_witness :
  Parking.checkParkingRules "Nob Hill" "Monday" 9
  = Parking.mkRuleCheck "Nob Hill"
      (Some (Parking.mkParkingRule Parking.allowed
               "Parking currently allowed" None None
               (Some "No scheduled street cleaning")))
  /\ Parking.checkParkingRules "toString" "Monday" 9
     = Parking.mkRuleCheck "toString" None.
Proof.
  split.
  - apply (district_without_schedule "Nob Hill" "Monday" 9).
    vm_compute. intuition discriminate.
  - apply (district_without_schedule "toString" "Monday" 9).
    vm_compute. intuition discriminate.
Defined.

Lemma total_cost_additive_witness :
  Parking.calculateTotalCost (["Bus Zone"; "Red Zone"] ++ ["Fire Hydrant"])
  = Parking.number (398 + 110)
  /\ Parking.calculateTotalCost ["Red Zone"; "Bus Zone"]
     = Parking.number 398.
Proof.
  destruct total_cost_additive as [Hadd Hperm].
  split.
  - apply Hadd; reflexivity.
  - apply (Hperm ["Bus Zone"; "Red Zone"]).
    + apply perm_swap.
    + reflexivity.
Defined.

Lemma total_cost_bounds_witness :
  0 <= 398 <= 866 * Z.of_nat (List.length ["Bus Zone"; "Jaywalking";
                                           "Red Zone"])
  /\ Parking.calculateTotalCost (["Bus Zone"] ++ "Jaywalking" :: ["Red Zone"])
     = Parking.calculateTotalCost (["Bus Zone"] ++ ["Red Zone"])
  /\ Parking.calculateTotalCost (["Bus Zone"] ++ "valueOf" :: ["Red Zone"])
     = Parking.text.
Proof.
  destruct total_cost_bounds as [Hrange [Hskip Htext]].
  split; [|split].
  - apply (Hrange ["Bus Zone"; "Jaywalking"; "Red Zone"]). reflexivity.
  - apply Hskip. reflexivity.
  - apply Htext. reflexivity.
Defined.

(** An array with a [null] entry and a user message without content are
    answered with 500; a message from the assistant alone with 400; a
    conversation with a user message with 200. *)
Lemma POST_answers_witness :
  Chat.POST (Chat.jsonEntries
               [Chat.valueEntry (Some "user") (Chat.textContent "Hi");
                Chat.nullEntry])
  = Chat.POST Chat.unparsable
  /\ Chat.POST (Chat.jsonEntries
                  ([] ++ Chat.valueEntry (Some "user") Chat.absentContent
                      :: []))
     = Chat.POST Chat.unparsable
  /\ Chat.status
       (Chat.POST (Chat.jsonEntries
                     ([Chat.valueEntry None Chat.absentContent]
                        ++ Chat.valueEntry (Some "user")
                             (Chat.textContent "Hi") :: []))) = 200
  /\ Chat.POST (Chat.jsonValue (Some [Chat.mkMessage "assistant" "Hello"]))
     = Chat.mkResponse 400 Chat.jsonHeaders
         (Chat.json "No user message found")
  /\ Chat.status
       (Chat.POST (Chat.jsonValue
                     (Some [Chat.mkMessage "assistant" "Hello";
                            Chat.mkMessage "user" "Hi"]))) = 200.
Proof.
  destruct POST_answers
    as [_ [_ [_ [Hnull [_ [Hlast [_ [Hnone Hsome]]]]]]]].
  split; [|split; [|split; [|split]]].
  - apply Hnull. right. left. reflexivity.
  - apply (Hlast [] Chat.absentContent []).
    + simpl. intros [H|[]]. discriminate.
    + intros c' [].
    + right. left. reflexivity.
  - apply (Hlast [Chat.valueEntry None Chat.absentContent]
             (Chat.textContent "Hi") []).
    + simpl. intros [H|[H|[]]]; discriminate.
    + intros c' [].
    + simpl. discriminate.
    + reflexivity.
    + simpl. repeat constructor. simpl. discriminate.
  - apply Hnone. repeat constructor. simpl. discriminate.
  - apply (Hsome _ (Chat.mkMessage "user" "Hi")).
    + right. left. reflexivity.
    + reflexivity.
Defined.

Lemma prompt_of_conversation_witness :
  Chat.POST (Chat.jsonValue
               (Some [Chat.mkMessage "user" "Hi";
                      Chat.mkMessage "assistant" "Hello";
                      Chat.mkMessage "user" "Is parking allowed?"]))
  = Chat.mkResponse 200 Chat.streamHeaders
      (Chat.eventStream
         (Chat.SYSTEM_PROMPT ++ Chat.lf ++ Chat.lf
            ++ "Previous conversation:" ++ Chat.lf
            ++ "User: Hi" ++ Chat.lf ++ Chat.lf ++ "Assistant: Hello"
            ++ Chat.lf ++ Chat.lf ++ "User: Is parking allowed?")%string).
Proof.
  destruct prompt_of_conversation as [_ Hmany].
  apply (Hmany (Chat.mkMessage "user" "Hi")
           [Chat.mkMessage "assistant" "Hello"]
           (Chat.mkMessage "user" "Is parking allowed?")
           [Chat.mkMessage "user" "Hi"; Chat.mkMessage "assistant" "Hello"]
           (Chat.mkMessage "user" "Is parking allowed?") []).
  - reflexivity.
  - reflexivity.
  - constructor.
Defined.

Lemma final_reply_ignored_witness :
  Chat.POST (Chat.jsonValue
               (Some ([Chat.mkMessage "user" "Hi"]
                        ++ [Chat.mkMessage "assistant" "Hello"])))
  = Chat.POST (Chat.jsonValue
                 (Some ([Chat.mkMessage "user" "Hi"]
                          ++ [Chat.mkMessage "system" "Be brief"]))).
Proof.
  apply (final_reply_ignored [Chat.mkMessage "user" "Hi"]);
    simpl; discriminate.
Defined.
